(** * groups_sync: membership reconciliation between a local group and a
      UW Groups (GWS) group.

    Shallow embedding of [src/groups_sync.py].  Python strings are
    [String.string], Python lists are [list]; the HTTP service, [getent],
    standard output, [time.sleep] and [sys.exit] are observed through a
    trace of events; the answers of the outside world are an environment
    that may depend on everything that happened before. *)

From Stdlib Require Import List String Ascii Bool Arith Lia ZArith.
Import ListNotations.
Open Scope string_scope.
Open Scope list_scope.
Open Scope nat_scope.

(* ================================================================== *)
(** ** Python string primitives used by the program *)
(* ================================================================== *)

Module PyStr.

Definition code (c : ascii) : nat := nat_of_ascii c.

Definition newline : ascii := ascii_of_nat 10.

(** [str.isspace] on the code points below 256: the characters
    [str.strip()] removes at both ends. *)
Definition isspace (c : ascii) : bool :=
  let n := code c in
  ((9 <=? n) && (n <=? 13)) || ((28 <=? n) && (n <=? 32))
  || (n =? 133) || (n =? 160).

Fixpoint lstrip (s : string) : string :=
  match s with
  | EmptyString => EmptyString
  | String c r => if isspace c then lstrip r else s
  end.

(** Removes trailing white space: a character is dropped when it is white
    space and everything after it has been dropped. *)
Fixpoint rstrip (s : string) : string :=
  match s with
  | EmptyString => EmptyString
  | String c r =>
      match rstrip r with
      | EmptyString => if isspace c then EmptyString else String c EmptyString
      | r' => String c r'
      end
  end.

(** [s.strip()] *)
Definition strip (s : string) : string := rstrip (lstrip s).

(** [s.split(sep)] for a one-character separator: always at least one
    piece, [n + 1] pieces for [n] occurrences of the separator. *)
Fixpoint split (sep : ascii) (s : string) : list string :=
  match s with
  | EmptyString => [EmptyString]
  | String c r =>
      if Ascii.eqb c sep then EmptyString :: split sep r
      else match split sep r with
           | h :: t => String c h :: t
           | [] => [String c EmptyString]
           end
  end.

(** [sep.join(pieces)] *)
Fixpoint join (sep : string) (pieces : list string) : string :=
  match pieces with
  | [] => EmptyString
  | [p] => p
  | p :: rest => (p ++ sep ++ join sep rest)%string
  end.

(** [m in l] for a list of strings. *)
Definition mem (m : string) (l : list string) : bool :=
  existsb (String.eqb m) l.

(** [set(a) == set(b)] for two lists of strings. *)
Definition set_eqb (a b : list string) : bool :=
  forallb (fun m => mem m b) a && forallb (fun m => mem m a) b.

(** [range(0, stop, step)], by counting up from [i] while [i < stop]. *)
Fixpoint range_from (fuel i stop step : nat) : list nat :=
  match fuel with
  | O => []
  | S fuel' =>
      if i <? stop then i :: range_from fuel' (i + step) stop step else []
  end.

Definition range0 (stop step : nat) : list nat :=
  range_from stop 0 stop step.

(** [l[i : j]] for [0 <= i <= j]. *)
Definition slice {A} (l : list A) (i j : nat) : list A :=
  firstn (j - i) (skipn i l).

End PyStr.

(* ================================================================== *)
(** ** The fragment of Python's [re] the program uses *)
(* ================================================================== *)

Module Re.

Inductive regex : Type :=
| Bol                                   (* ^ *)
| Eol                                   (* $ *)
| Class (ranges : list (ascii * ascii)) (* [a-z0-9] *)
| Rep (r : regex) (lo hi : nat)         (* r{lo,hi} *)
| Cat (r1 r2 : regex).

Definition in_range (c : ascii) (rg : ascii * ascii) : bool :=
  (PyStr.code (fst rg) <=? PyStr.code c) && (PyStr.code c <=? PyStr.code (snd rg)).

Definition in_class (c : ascii) (ranges : list (ascii * ascii)) : bool :=
  existsb (in_range c) ranges.

(** Backtracking matcher in continuation-passing style.  [pos] is the
    number of characters already consumed, [s] what is left of the subject.
    Without the MULTILINE flag, [^] holds at position 0 only and [$] holds
    at the end of the subject and also just before a newline that is the
    last character of the subject. *)
Fixpoint m (r : regex) (pos : nat) (s : string)
           (k : nat -> string -> bool) {struct r} : bool :=
  match r with
  | Bol => (pos =? 0) && k pos s
  | Eol =>
      match s with
      | EmptyString => k pos s
      | String c EmptyString => Ascii.eqb c PyStr.newline && k pos s
      | _ => false
      end
  | Class ranges =>
      match s with
      | EmptyString => false
      | String c s' => in_class c ranges && k (S pos) s'
      end
  | Cat r1 r2 => m r1 pos s (fun pos' s' => m r2 pos' s' k)
  | Rep r1 lo hi =>
      (fix rep (lo hi pos : nat) (s : string) {struct hi} : bool :=
         match hi with
         | O => (lo =? 0) && k pos s
         | S hi' =>
             m r1 pos s (fun pos' s' => rep (lo - 1) hi' pos' s')
             || ((lo =? 0) && k pos s)
         end) lo hi pos s
  end.

(** [re.match(pattern, s)] seen as a truth value: the pattern matches a
    prefix of [s]. *)
Definition re_match (r : regex) (s : string) : bool :=
  m r 0 s (fun _ _ => true).

End Re.

(* ================================================================== *)
(** ** Identifier validation and the two membership readers *)
(* ================================================================== *)

(** The pattern ["^[a-z][a-z0-9]{0,7}$"] of [get_uw_group_members]. *)
Definition netid_pattern : Re.regex :=
  Re.Cat Re.Bol
    (Re.Cat (Re.Class [("a"%char, "z"%char)])
       (Re.Cat (Re.Rep (Re.Class [("a"%char, "z"%char); ("0"%char, "9"%char)]) 0 7)
          Re.Eol)).

(** The test [re.match("^[a-z][a-z0-9]{0,7}$", member["id"])]. *)
Definition valid_netid (id : string) : bool := Re.re_match netid_pattern id.

(** One element of the ["data"] array of the member listing. *)
Record member_record : Type := MemberRecord {
  mtype : string;
  mid : string
}.

(** The loop of [get_uw_group_members] over [r.json()["data"]]. *)
Definition select_members (data : list member_record) : list string :=
  fold_left
    (fun group_members member =>
       if String.eqb (mtype member) "uwnetid" then
         if valid_netid (mid member) then group_members ++ [mid member]
         else group_members
       else group_members)
    data [].

(** [r.stdout.strip().split(":")[3].split(",")] of
    [get_local_group_members]; [None] is the IndexError of a record with
    fewer than four fields. *)
Definition parse_getent (stdout : string) : option (list string) :=
  match nth_error (PyStr.split ":"%char (PyStr.strip stdout)) 3 with
  | Some field => Some (PyStr.split ","%char field)
  | None => None
  end.

(* ================================================================== *)
(** ** Effects: the outside world, the trace, exceptions and [sys.exit] *)
(* ================================================================== *)

(** What a call to the outside world does: it returns a value or raises. *)
Inductive answer (A : Type) : Type :=
| Returns (a : A)
| Raises.

Arguments Returns {A} a.

Arguments Raises {A}.

(** The lines the program prints. *)
Inductive log_line : Type :=
| FatalRetrieving
| FatalAdding
| FatalRemoving
| StatusAdd (uw_group local_group : string) (lo hi : nat) (status_code : Z)
| StatusRemove (uw_group local_group : string) (lo hi : nat) (status_code : Z)
| Summary (uw_group local_group : string) (n_add n_rem : nat).

(** Everything the program does that can be seen from outside, each
    request with the answer it got. *)
Inductive event : Type :=
| EvGet (url : string) (res : answer (list member_record))
| EvGetent (local_group : string) (res : answer string)
| EvPut (url : string) (members : list string) (res : answer Z)
| EvDelete (url : string) (members : list string) (res : answer Z)
| EvPrint (line : log_line)
| EvSleep (seconds : nat)
| EvExit (code : nat).

Definition trace : Type := list event.

(** The outside world: each answer may depend on the request and on the
    whole history of the run.  For the member listing, [Raises] stands for
    any exception of [requests.get], of [r.json()] or of the walk over the
    payload; for [getent], for any exception of [subprocess.run]. *)
Record env : Type := Env {
  requests_get : trace -> string -> answer (list member_record);
  getent : trace -> string -> answer string;
  requests_put : trace -> string -> answer Z;
  requests_delete : trace -> string -> answer Z
}.

(** The configuration file. *)
Record config : Type := Config {
  gws_base_url : string;
  gws_ca_cert : string;
  gws_client_cert : string;
  gws_client_key : string;
  group_map : list (string * string)
}.

(** How a piece of the program ends: normally, with a Python exception of
    class [Exception], or with the [SystemExit] of [sys.exit]. *)
Inductive result (A : Type) : Type :=
| Ok (a : A)
| Exc
| SysExit (code : nat).

Arguments Ok {A} a.

Arguments Exc {A}.

Arguments SysExit {A} code.

(** A computation reads the history so far and gives the events it adds and
    how it ends. *)
Definition M (A : Type) : Type := trace -> trace * result A.

Definition ret {A} (a : A) : M A := fun _ => ([], Ok a).

Definition bind {A B} (c : M A) (f : A -> M B) : M B :=
  fun h =>
    match c h with
    | (t1, Ok a) => let (t2, r) := f a (h ++ t1) in (t1 ++ t2, r)
    | (t1, Exc) => (t1, Exc)
    | (t1, SysExit code) => (t1, SysExit code)
    end.

Declare Scope prog_scope.

Delimit Scope prog_scope with prog.

Notation "x <- c ;; k" := (bind c (fun x => k))
  (at level 61, c at next level, right associativity) : prog_scope.

Notation "' p <- c ;; k" := (bind c (fun x => let 'p := x in k))
  (at level 61, p pattern, c at next level, right associativity) : prog_scope.

Notation "c ;; k" := (bind c (fun _ => k))
  (at level 61, right associativity) : prog_scope.

Open Scope prog_scope.

Definition raise {A} : M A := fun _ => ([], Exc).

(** [sys.exit(code)]: [SystemExit] is not an [Exception], no handler of the
    program catches it. *)
Definition sys_exit {A} (code : nat) : M A := fun _ => ([EvExit code], SysExit code).

Definition print (line : log_line) : M unit := fun _ => ([EvPrint line], Ok tt).

Definition sleep (seconds : nat) : M unit := fun _ => ([EvSleep seconds], Ok tt).

(** [try: body  except Exception: handler] *)
Definition try_except {A} (body handler : M A) : M A :=
  fun h =>
    match body h with
    | (t1, Exc) => let (t2, r) := handler (h ++ t1) in (t1 ++ t2, r)
    | other => other
    end.

(** [for x in xs: body] *)
Fixpoint for_each {A} (xs : list A) (body : A -> M unit) : M unit :=
  match xs with
  | [] => ret tt
  | x :: rest => body x ;; for_each rest body
  end.

Definition lift_answer {A} (ev : answer A -> event) (a : answer A) : trace * result A :=
  match a with
  | Returns v => ([ev a], Ok v)
  | Raises => ([ev a], Exc)
  end.

(* ================================================================== *)
(** ** The program *)
(* ================================================================== *)

Section Program.

Variable world : env.

Variable cfg : config.

Definition member_url (uw_group : string) : string :=
  (gws_base_url cfg ++ "/group/" ++ uw_group ++ "/member")%string.

Definition members_url (uw_group : string) (members : list string) : string :=
  (gws_base_url cfg ++ "/group/" ++ uw_group ++ "/member/"
     ++ PyStr.join "," members)%string.

Definition get_uw_group_members (uw_group : string) : M (list string) :=
  data <- (fun h => lift_answer (EvGet (member_url uw_group))
                      (requests_get world h (member_url uw_group))) ;;
  ret (select_members data).

Definition get_local_group_members (local_group : string) : M (list string) :=
  stdout <- (fun h => lift_answer (EvGetent local_group)
                        (getent world h local_group)) ;;
  match parse_getent stdout with
  | Some members => ret members
  | None => raise
  end.

Definition add_uw_group_members (uw_group : string) (members : list string) : M Z :=
  fun h =>
    let url := members_url uw_group members in
    lift_answer (EvPut url members) (requests_put world h url).

Definition remove_uw_group_members (uw_group : string) (members : list string) : M Z :=
  fun h =>
    let url := members_url uw_group members in
    lift_answer (EvDelete url members) (requests_delete world h url).

(** The loops [for member in xs: if member not in ys: acc.append(member)]. *)
Definition collect_missing (xs ys : list string) : list string :=
  fold_left
    (fun acc member => if negb (PyStr.mem member ys) then acc ++ [member] else acc)
    xs [].

Definition chunk_size : nat := 50.

(** Lines 120-179 of [main]: what is done for one pair of groups once both
    member lists are there. *)
Definition reconcile (uw_group local_group : string)
           (uw_group_member_list local_group_member_list : list string) : M unit :=
  '(add_members, remove_members) <-
    (if negb (PyStr.set_eqb local_group_member_list uw_group_member_list) then
       let add_members :=
         collect_missing local_group_member_list uw_group_member_list in
       let remove_members :=
         collect_missing uw_group_member_list local_group_member_list in
       for_each (PyStr.range0 (List.length add_members) chunk_size)
         (fun i =>
            try_except
              (status_code <- add_uw_group_members uw_group
                                (PyStr.slice add_members i (i + chunk_size)) ;;
               print (StatusAdd uw_group local_group i (i + chunk_size) status_code))
              (print FatalAdding ;; sys_exit 1) ;;
            sleep 1) ;;
       for_each (PyStr.range0 (List.length remove_members) chunk_size)
         (fun i =>
            try_except
              (status_code <- remove_uw_group_members uw_group
                                (PyStr.slice remove_members i (i + chunk_size)) ;;
               print (StatusRemove uw_group local_group i (i + chunk_size) status_code))
              (print FatalRemoving ;; sys_exit 1) ;;
            sleep 1) ;;
       ret (add_members, remove_members)
     else ret ([], [])) ;;
  print (Summary uw_group local_group (List.length add_members) (List.length remove_members)).

(** The body of the loop of [main] over [group_map.items()]. *)
Definition sync_group (pair : string * string) : M unit :=
  let '(uw_group, local_group) := pair in
  '(uw_group_member_list, local_group_member_list) <-
    try_except
      (uw_group_member_list <- get_uw_group_members uw_group ;;
       local_group_member_list <- get_local_group_members local_group ;;
       ret (uw_group_member_list, local_group_member_list))
      (print FatalRetrieving ;; sys_exit 1) ;;
  reconcile uw_group local_group uw_group_member_list local_group_member_list.

Definition main_loop (pairs : list (string * string)) : M unit :=
  for_each pairs sync_group.

Definition main : M unit := main_loop (group_map cfg).

End Program.

(** A whole run starts from the empty history. *)
Definition run (world : env) (cfg : config) : trace * result unit :=
  main world cfg [].

(** The exit status of the process. *)
Definition exit_status {A} (r : result A) : nat :=
  match r with
  | Ok _ => 0
  | Exc => 1
  | SysExit code => code
  end.

(** The member lists the program ends up with for one pair of lists
    (lines 108-127 of [main]). *)
Definition delta (local_list uw_list : list string) : list string * list string :=
  if negb (PyStr.set_eqb local_list uw_list)
  then (collect_missing local_list uw_list, collect_missing uw_list local_list)
  else ([], []).

(** The slices the batch loops send for a list of members. *)
Definition chunks (members : list string) : list (list string) :=
  map (fun i => PyStr.slice members i (i + chunk_size))
      (PyStr.range0 (List.length members) chunk_size).

(* ================================================================== *)
(** ** Reading a trace *)
(* ================================================================== *)

Definition is_put (e : event) : bool :=
  match e with EvPut _ _ _ => true | _ => false end.

Definition is_delete (e : event) : bool :=
  match e with EvDelete _ _ _ => true | _ => false end.

Definition is_call (e : event) : bool := is_put e || is_delete e.

Definition is_exit (e : event) : bool :=
  match e with EvExit _ => true | _ => false end.

(** The answer a batch call got. *)
Definition call_answer (e : event) : option (answer Z) :=
  match e with
  | EvPut _ _ res | EvDelete _ _ res => Some res
  | _ => None
  end.

Fixpoint put_batches (t : trace) : list (list string) :=
  match t with
  | [] => []
  | EvPut _ members _ :: t' => members :: put_batches t'
  | _ :: t' => put_batches t'
  end.

Fixpoint delete_batches (t : trace) : list (list string) :=
  match t with
  | [] => []
  | EvDelete _ members _ :: t' => members :: delete_batches t'
  | _ :: t' => delete_batches t'
  end.

Definition ceil_div (n d : nat) : nat := (n + d - 1) / d.

(** A batch call that raised. *)
Definition call_raised (e : event) : bool :=
  match call_answer e with
  | Some Raises => true
  | _ => false
  end.

(** The status code a printed line reports. *)
Definition logged_status (line : log_line) : option Z :=
  match line with
  | StatusAdd _ _ _ _ code | StatusRemove _ _ _ _ code => Some code
  | _ => None
  end.

Definition is_fatal_line (line : log_line) : bool :=
  match line with
  | FatalAdding | FatalRemoving => true
  | _ => false
  end.

Definition is_summary (e : event) : bool :=
  match e with EvPrint (Summary _ _ _ _) => true | _ => false end.

(** A fetch that raised: the listing, [getent], or the record with fewer
    than four fields. *)
Definition fetch_failed (e : event) : bool :=
  match e with
  | EvGet _ Raises => true
  | EvGetent _ Raises => true
  | EvGetent _ (Returns stdout) =>
      match parse_getent stdout with None => true | Some _ => false end
  | _ => false
  end.

Definition failed (e : event) : bool := fetch_failed e || call_raised e.

(** After a call that returned comes the line with its status code, then the
    pause; after a call that raised come the fatal line and the exit, and
    nothing else. *)
Fixpoint call_protocol (t : trace) : Prop :=
  match t with
  | [] => True
  | e :: t' =>
      match call_answer e with
      | Some (Returns code) =>
          exists line rest,
            t' = EvPrint line :: EvSleep 1 :: rest /\ logged_status line = Some code
      | Some Raises =>
          exists line, t' = [EvPrint line; EvExit 1] /\ is_fatal_line line = true
      | None => True
      end /\ call_protocol t'
  end.

(** The reading of "a pause after every call, whether it succeeded or
    failed": each call is followed by a pause of one second, with no other
    call and no exit in between. *)
Definition delay_after_every_call (t : trace) : Prop :=
  forall pre e post,
    t = pre ++ e :: post -> is_call e = true ->
    exists mid rest,
      post = mid ++ EvSleep 1 :: rest /\
      Forall (fun x => is_call x = false /\ is_exit x = false) mid.

(** Every PUT comes before every DELETE. *)
Definition puts_before_deletes (t : trace) : Prop :=
  forall i j e1 e2,
    nth_error t i = Some e1 -> nth_error t j = Some e2 ->
    is_put e1 = true -> is_delete e2 = true -> i < j.

(** One of the two fetches for the pair raises when started after the
    history [h]: the member listing, [getent], or the parsing of a record
    with fewer than four fields. *)
Definition fetch_fails (world : env) (cfg : config) (uw_group local_group : string)
           (h : trace) : Prop :=
  requests_get world h (member_url cfg uw_group) = Raises \/
  exists data,
    requests_get world h (member_url cfg uw_group) = Returns data /\
    let h' := h ++ [EvGet (member_url cfg uw_group) (Returns data)] in
    (getent world h' local_group = Raises \/
     exists stdout,
       getent world h' local_group = Returns stdout /\ parse_getent stdout = None).

(* ================================================================== *)
(** ** The runs of the program as relations *)
(* ================================================================== *)

Section BatchLoop.

(** Both batch loops of [main] are instances of one loop: [send] issues
    the call for one slice, [status] is the line printed when the call
    returned, [fatal] the line printed when it raised. *)
Variable mk : list string -> answer Z -> event.

Variable oracle : trace -> list string -> answer Z.

Variable status : nat -> nat -> Z -> log_line.

Variable fatal : log_line.

Variable members : list string.

Definition send (batch : list string) : M Z :=
  fun h => lift_answer (mk batch) (oracle h batch).

Definition batch_step (i : nat) : M unit :=
  try_except
    (status_code <- send (PyStr.slice members i (i + chunk_size)) ;;
     print (status i (i + chunk_size) status_code))
    (print fatal ;; sys_exit 1) ;;
  sleep 1.

Definition batch_loop (idxs : list nat) : M unit := for_each idxs batch_step.

(** The traces a batch loop can leave behind, with the way the loop ends:
    a call that returns is followed by its status line and the pause, a
    call that raises by the fatal line and the exit. *)
Inductive phase : list nat -> trace -> result unit -> Prop :=
| phase_done : phase [] [] (Ok tt)
| phase_returned i idxs code t r :
    phase idxs t r ->
    phase (i :: idxs)
      (mk (PyStr.slice members i (i + chunk_size)) (Returns code)
         :: EvPrint (status i (i + chunk_size) code) :: EvSleep 1 :: t) r
| phase_raised i idxs :
    phase (i :: idxs)
      [mk (PyStr.slice members i (i + chunk_size)) Raises; EvPrint fatal; EvExit 1]
      (SysExit 1).

End BatchLoop.

(** The two loops of [reconcile] as instances. *)
Section Phases.

Variable world : env.

Variable cfg : config.

Variable uw_group local_group : string.

Definition mk_put (batch : list string) : answer Z -> event :=
  EvPut (members_url cfg uw_group batch) batch.

Definition mk_delete (batch : list string) : answer Z -> event :=
  EvDelete (members_url cfg uw_group batch) batch.

Definition add_phase (members : list string) :=
  phase mk_put (StatusAdd uw_group local_group) FatalAdding members
        (PyStr.range0 (List.length members) chunk_size).

Definition remove_phase (members : list string) :=
  phase mk_delete (StatusRemove uw_group local_group) FatalRemoving members
        (PyStr.range0 (List.length members) chunk_size).

(** The runs of [reconcile], by the way they end. *)
Inductive reconcile_run (uw_list local_list : list string)
  : trace -> result unit -> Prop :=
| run_in_sync :
    PyStr.set_eqb local_list uw_list = true ->
    reconcile_run uw_list local_list
      [EvPrint (Summary uw_group local_group 0 0)] (Ok tt)
| run_add_fatal t1 :
    PyStr.set_eqb local_list uw_list = false ->
    add_phase (collect_missing local_list uw_list) t1 (SysExit 1) ->
    reconcile_run uw_list local_list t1 (SysExit 1)
| run_remove_fatal t1 t2 :
    PyStr.set_eqb local_list uw_list = false ->
    add_phase (collect_missing local_list uw_list) t1 (Ok tt) ->
    remove_phase (collect_missing uw_list local_list) t2 (SysExit 1) ->
    reconcile_run uw_list local_list (t1 ++ t2) (SysExit 1)
| run_complete t1 t2 :
    PyStr.set_eqb local_list uw_list = false ->
    add_phase (collect_missing local_list uw_list) t1 (Ok tt) ->
    remove_phase (collect_missing uw_list local_list) t2 (Ok tt) ->
    reconcile_run uw_list local_list
      (t1 ++ t2 ++
         [EvPrint (Summary uw_group local_group
                   (List.length (collect_missing local_list uw_list))
                   (List.length (collect_missing uw_list local_list)))])
      (Ok tt).

Definition put_oracle (h : trace) (batch : list string) : answer Z :=
  requests_put world h (members_url cfg uw_group batch).

Definition delete_oracle (h : trace) (batch : list string) : answer Z :=
  requests_delete world h (members_url cfg uw_group batch).

Definition add_loop (members : list string) : M unit :=
  batch_loop mk_put put_oracle (StatusAdd uw_group local_group) FatalAdding
    members (PyStr.range0 (List.length members) chunk_size).

Definition remove_loop (members : list string) : M unit :=
  batch_loop mk_delete delete_oracle (StatusRemove uw_group local_group)
    FatalRemoving members (PyStr.range0 (List.length members) chunk_size).

End Phases.

Section Runs.

Variable cfg : config.

(** What one turn of the loop of [main] can leave behind. *)
Inductive group_run : string * string -> trace -> result unit -> Prop :=
| group_get_raised uw_group local_group :
    group_run (uw_group, local_group)
      [EvGet (member_url cfg uw_group) Raises; EvPrint FatalRetrieving; EvExit 1]
      (SysExit 1)
| group_getent_raised uw_group local_group data :
    group_run (uw_group, local_group)
      [EvGet (member_url cfg uw_group) (Returns data);
       EvGetent local_group Raises; EvPrint FatalRetrieving; EvExit 1]
      (SysExit 1)
| group_getent_short uw_group local_group data stdout :
    parse_getent stdout = None ->
    group_run (uw_group, local_group)
      [EvGet (member_url cfg uw_group) (Returns data);
       EvGetent local_group (Returns stdout); EvPrint FatalRetrieving; EvExit 1]
      (SysExit 1)
| group_fetched uw_group local_group data stdout local_list t r :
    parse_getent stdout = Some local_list ->
    reconcile_run cfg uw_group local_group (select_members data) local_list t r ->
    group_run (uw_group, local_group)
      (EvGet (member_url cfg uw_group) (Returns data)
         :: EvGetent local_group (Returns stdout) :: t) r.

Inductive main_run : list (string * string) -> trace -> result unit -> Prop :=
| main_done : main_run [] [] (Ok tt)
| main_next pair pairs t1 t2 r :
    group_run pair t1 (Ok tt) -> main_run pairs t2 r ->
    main_run (pair :: pairs) (t1 ++ t2) r
| main_fatal pair pairs t1 :
    group_run pair t1 (SysExit 1) -> main_run (pair :: pairs) t1 (SysExit 1).

End Runs.

(* ================================================================== *)
(** ** The identifier check read as the whole string *)
(* ================================================================== *)

Definition lower : list (ascii * ascii) := [("a"%char, "z"%char)].

Definition lower_alnum : list (ascii * ascii) :=
  [("a"%char, "z"%char); ("0"%char, "9"%char)].

Fixpoint all_in_class (ranges : list (ascii * ascii)) (s : string) : bool :=
  match s with
  | EmptyString => true
  | String c r => Re.in_class c ranges && all_in_class ranges r
  end.

(** Follows the spec's words: the whole string is one lowercase letter
    followed by at most seven lowercase letters or digits. *)
Definition netid_anchored (s : string) : bool :=
  match s with
  | EmptyString => false
  | String c r =>
      Re.in_class c lower && (String.length r <=? 7) && all_in_class lower_alnum r
  end.

Definition at_eol (s : string) : bool :=
  match s with
  | EmptyString => true
  | String c EmptyString => Ascii.eqb c PyStr.newline
  | _ => false
  end.

(** The one-character string holding a newline. *)
Definition nl : string := String PyStr.newline EmptyString.

(* ================================================================== *)
(** ** Sample worlds *)
(* ================================================================== *)

(** A world whose answers do not depend on the request. *)
Definition fixed_world (listing : answer (list member_record)) (stdout : answer string)
           (put del : answer Z) : env :=
  Env (fun _ _ => listing) (fun _ _ => stdout) (fun _ _ => put) (fun _ _ => del).

Definition sample_cfg : config :=
  Config "https://gws.example/v3" "ca.pem" "client.pem" "client.key"
         [("u_dept_staff", "staff"); ("u_dept_admins", "wheel")].

Definition one_pair_cfg : config :=
  Config "https://gws.example/v3" "ca.pem" "client.pem" "client.key"
         [("u_dept_staff", "staff")].

Definition uwnetid (id : string) : member_record := MemberRecord "uwnetid" id.

Definition put_raises_world : env :=
  fixed_world (Returns [uwnetid "bob"]) (Returns "staff:x:50:al") Raises Raises.

Definition status_500_world : env :=
  fixed_world (Returns [uwnetid "bob"]) (Returns "staff:x:50:al")
              (Returns 500%Z) (Returns 404%Z).

Definition get_raises_world : env :=
  fixed_world Raises (Returns "staff:x:50:al") (Returns 200%Z) (Returns 200%Z).

Definition empty_staff_world : env :=
  fixed_world (Returns [uwnetid "bob"]) (Returns ("staff:x:50:" ++ nl)%string)
              (Returns 200%Z) (Returns 200%Z).

(** Distinct two-letter names. *)
Definition two_letter (k : nat) : string :=
  String (ascii_of_nat (97 + k mod 26))
    (String (ascii_of_nat (97 + k / 26)) EmptyString).

Definition many_names (n : nat) : list string := map two_letter (seq 0 n).

(** The batching property read for every run, cut short or not: for each of
    the two lists, ceil(N/50) calls, each with at most 50 identifiers, whose
    contents put end to end are the list. *)
Definition batching_as_stated (t : trace) (adds rems : list string) : Prop :=
  List.length (put_batches t) = ceil_div (List.length adds) 50 /\
  Forall (fun b => List.length b <= 50) (put_batches t) /\
  List.concat (put_batches t) = adds /\
  List.length (delete_batches t) = ceil_div (List.length rems) 50 /\
  Forall (fun b => List.length b <= 50) (delete_batches t) /\
  List.concat (delete_batches t) = rems.

(** A local group without members, as [getent] prints it, and a remote
    listing of a, ab and abc; every batch call returns 200. *)
Definition teardown_world : env :=
  fixed_world (Returns [uwnetid "a"; uwnetid "ab"; uwnetid "abc"])
              (Returns ("staff:x:50:" ++ nl)%string)
              (Returns 200%Z) (Returns 200%Z).

(* ================================================================== *)
(** ** Further readings of strings and traces *)
(* ================================================================== *)

(** How many times the character occurs in the string. *)
Fixpoint count_char (c : ascii) (s : string) : nat :=
  match s with
  | EmptyString => 0
  | String d r => (if Ascii.eqb d c then 1 else 0) + count_char c r
  end.

(** The seconds the program spent in [time.sleep]. *)
Fixpoint total_sleep (t : trace) : nat :=
  match t with
  | [] => 0
  | EvSleep seconds :: t' => seconds + total_sleep t'
  | _ :: t' => total_sleep t'
  end.

(** A batch call that returned a status code. *)
Definition call_returned (e : event) : bool :=
  match call_answer e with
  | Some (Returns _) => true
  | _ => false
  end.

(** The pairs of groups named by the summary lines, in the order printed. *)
Fixpoint summary_pairs (t : trace) : list (string * string) :=
  match t with
  | [] => []
  | EvPrint (Summary uw_group local_group _ _) :: t' =>
      (uw_group, local_group) :: summary_pairs t'
  | _ :: t' => summary_pairs t'
  end.

(** The URL a batch call was sent to. *)
Definition call_url (e : event) : option string :=
  match e with
  | EvPut url _ _ | EvDelete url _ _ => Some url
  | _ => None
  end.

Definition comma : string := String ","%char EmptyString.

Definition colon : string := String ":"%char EmptyString.

(** The trace stops at a fatal line followed by [sys.exit(1)], the only exit
    in it. *)
Definition ends_with_exit (t : trace) : Prop :=
  exists pre line,
    t = pre ++ [EvPrint line; EvExit 1] /\ Forall (fun e => is_exit e = false) pre.

(** What an event of the reconciliation for [uw_group] may be: a PUT or a
    DELETE to the member URL of that group, carrying at least one member and
    only members of the given lists; never a fetch. *)
Definition sends_only (cfg : config) (uw_group : string)
           (adds rems : list string) (e : event) : Prop :=
  match e with
  | EvPut url batch _ =>
      url = members_url cfg uw_group batch /\ batch <> [] /\
      Forall (fun m => In m adds) batch
  | EvDelete url batch _ =>
      url = members_url cfg uw_group batch /\ batch <> [] /\
      Forall (fun m => In m rems) batch
  | EvGet _ _ | EvGetent _ _ => False
  | _ => True
  end.

Definition is_fetch (e : event) : bool :=
  match e with
  | EvGet _ _ | EvGetent _ _ => true
  | _ => false
  end.

(* ================================================================== *)
(** ** Lists of members: membership, set comparison, the delta *)
(* ================================================================== *)

Lemma mem_In (m : string) (l : list string) :
  PyStr.mem m l = true <-> In m l.
Proof.
  unfold PyStr.mem. rewrite existsb_exists. split.
  - intros [x [Hin Heq]]. apply String.eqb_eq in Heq. now subst.
  - intros Hin. exists m. split; [assumption | apply String.eqb_refl].
Qed.

Lemma mem_false (m : string) (l : list string) :
  PyStr.mem m l = false <-> ~ In m l.
Proof.
  rewrite <- mem_In. destruct (PyStr.mem m l); split; intros; congruence.
Qed.

Lemma set_eqb_true (a b : list string) :
  PyStr.set_eqb a b = true <-> (forall m, In m a <-> In m b).
Proof.
  unfold PyStr.set_eqb. rewrite andb_true_iff, !forallb_forall. split.
  - intros [Hab Hba] m. split; intros H.
    + apply mem_In, Hab, H.
    + apply mem_In, Hba, H.
  - intros H. split; intros m Hm; apply mem_In, H, Hm.
Qed.

Lemma collect_missing_acc (xs ys acc : list string) :
  fold_left
    (fun acc member => if negb (PyStr.mem member ys) then acc ++ [member] else acc)
    xs acc
  = acc ++ filter (fun m => negb (PyStr.mem m ys)) xs.
Proof.
  revert acc. induction xs as [|x xs IH]; intros acc; simpl.
  - now rewrite app_nil_r.
  - rewrite IH. destruct (negb (PyStr.mem x ys)); simpl.
    + now rewrite <- app_assoc.
    + reflexivity.
Qed.

Lemma collect_missing_filter (xs ys : list string) :
  collect_missing xs ys = filter (fun m => negb (PyStr.mem m ys)) xs.
Proof. unfold collect_missing. now rewrite collect_missing_acc. Qed.

Lemma collect_missing_In (xs ys : list string) (m : string) :
  In m (collect_missing xs ys) <-> In m xs /\ ~ In m ys.
Proof.
  rewrite collect_missing_filter, filter_In, negb_true_iff, mem_false.
  reflexivity.
Qed.

Lemma collect_missing_all (xs ys : list string) :
  (forall m, In m xs -> ~ In m ys) -> collect_missing xs ys = xs.
Proof.
  intros H. rewrite collect_missing_filter.
  induction xs as [|x xs IH]; [reflexivity|]. simpl.
  assert (Hx : PyStr.mem x ys = false) by (apply mem_false, H; now left).
  rewrite Hx. simpl. f_equal. apply IH. intros m Hm. apply H. now right.
Qed.

Lemma delta_add_In (local_list uw_list : list string) (m : string) :
  In m (fst (delta local_list uw_list)) <-> In m local_list /\ ~ In m uw_list.
Proof.
  unfold delta. destruct (PyStr.set_eqb local_list uw_list) eqn:E; simpl.
  - pose proof (proj1 (set_eqb_true _ _) E) as E'.
    split; [tauto|]. intros [H1 H2]. apply H2, E', H1.
  - apply collect_missing_In.
Qed.

Lemma delta_remove_In (local_list uw_list : list string) (m : string) :
  In m (snd (delta local_list uw_list)) <-> In m uw_list /\ ~ In m local_list.
Proof.
  unfold delta. destruct (PyStr.set_eqb local_list uw_list) eqn:E; simpl.
  - pose proof (proj1 (set_eqb_true _ _) E) as E'.
    split; [tauto|]. intros [H1 H2]. apply H2, E', H1.
  - apply collect_missing_In.
Qed.

(* ================================================================== *)
(** ** [range] and the slices of the batch loops *)
(* ================================================================== *)

Lemma ceil_div_0 (d : nat) : 0 < d -> ceil_div 0 d = 0.
Proof. intros H. unfold ceil_div. apply Nat.div_small. lia. Qed.

Lemma ceil_div_step (n d : nat) :
  0 < d -> 0 < n -> ceil_div n d = S (ceil_div (n - d) d).
Proof.
  intros Hd Hn. unfold ceil_div.
  destruct (le_lt_dec n d) as [Hle|Hlt].
  - replace (n - d) with 0 by lia.
    rewrite (Nat.div_small (0 + d - 1) d) by lia.
    replace (n + d - 1) with (1 * d + (n - 1)) by lia.
    rewrite Nat.div_add_l by lia. rewrite Nat.div_small by lia. reflexivity.
  - replace (n + d - 1) with (1 * d + (n - d + d - 1)) by lia.
    rewrite Nat.div_add_l by lia. reflexivity.
Qed.

Lemma range_from_length (fuel i stop step : nat) :
  0 < step -> stop - i <= fuel ->
  List.length (PyStr.range_from fuel i stop step) = ceil_div (stop - i) step.
Proof.
  intros Hstep. revert i. induction fuel as [|fuel IH]; intros i Hfuel; simpl.
  - replace (stop - i) with 0 by lia. now rewrite ceil_div_0.
  - destruct (i <? stop) eqn:E.
    + apply Nat.ltb_lt in E. simpl. rewrite IH by lia.
      rewrite (ceil_div_step (stop - i) step) by lia.
      f_equal. f_equal. lia.
    + apply Nat.ltb_ge in E. replace (stop - i) with 0 by lia.
      now rewrite ceil_div_0.
Qed.

Lemma range_from_bound (fuel i stop step j : nat) :
  In j (PyStr.range_from fuel i stop step) -> j < stop.
Proof.
  revert i. induction fuel as [|fuel IH]; intros i; simpl; [tauto|].
  destruct (i <? stop) eqn:E; simpl; [|tauto].
  apply Nat.ltb_lt in E. intros [<-|H]; [assumption | eauto].
Qed.

Lemma slice_length_le {A} (l : list A) (i n : nat) :
  List.length (PyStr.slice l i (i + n)) <= n.
Proof.
  unfold PyStr.slice. rewrite length_firstn. lia.
Qed.

Lemma concat_slices_from {A} (l : list A) (fuel i step : nat) :
  0 < step -> List.length l - i <= fuel ->
  List.concat (map (fun j => PyStr.slice l j (j + step))
              (PyStr.range_from fuel i (List.length l) step))
  = skipn i l.
Proof.
  intros Hstep. revert i. induction fuel as [|fuel IH]; intros i Hfuel; simpl.
  - symmetry. apply skipn_all2. lia.
  - destruct (i <? List.length l) eqn:E.
    + simpl. rewrite IH by lia. unfold PyStr.slice.
      replace (i + step - i) with step by lia.
      replace (i + step) with (step + i) by lia.
      rewrite <- skipn_skipn. apply firstn_skipn.
    + apply Nat.ltb_ge in E. simpl. symmetry. now apply skipn_all2.
Qed.

Lemma chunks_length (members : list string) :
  List.length (chunks members) = ceil_div (List.length members) chunk_size.
Proof.
  unfold chunks, PyStr.range0. rewrite length_map.
  rewrite range_from_length; unfold chunk_size; try lia.
  now rewrite Nat.sub_0_r.
Qed.

Lemma chunks_bounded (members : list string) :
  Forall (fun b => List.length b <= chunk_size) (chunks members).
Proof.
  unfold chunks. apply Forall_forall. intros b Hb.
  apply in_map_iff in Hb. destruct Hb as [i [<- _]]. apply slice_length_le.
Qed.


Lemma chunks_concat (members : list string) :
  List.concat (chunks members) = members.
Proof.
  unfold chunks, PyStr.range0.
  rewrite concat_slices_from; unfold chunk_size; try lia. reflexivity.
Qed.

Lemma map_firstn_bounded (members : list string) (k : nat) :
  Forall (fun b => List.length b <= chunk_size)
    (map (fun i => PyStr.slice members i (i + chunk_size))
         (firstn k (PyStr.range0 (List.length members) chunk_size))).
Proof.
  apply Forall_forall. intros b Hb. apply in_map_iff in Hb.
  destruct Hb as [i [<- _]]. apply slice_length_le.
Qed.

(* ================================================================== *)
(** ** The shape of the loops *)
(* ================================================================== *)

Lemma bind_eq {A B} (c : M A) (f : A -> M B) (h : trace) :
  bind c f h =
  match c h with
  | (t1, Ok a) => let (t2, r) := f a (h ++ t1) in (t1 ++ t2, r)
  | (t1, Exc) => (t1, Exc)
  | (t1, SysExit code) => (t1, SysExit code)
  end.
Proof. reflexivity. Qed.

Lemma for_each_cons {A} (x : A) (xs : list A) (body : A -> M unit) (h : trace) :
  for_each (x :: xs) body h =
  match body x h with
  | (t1, Ok _) => let (t2, r) := for_each xs body (h ++ t1) in (t1 ++ t2, r)
  | (t1, Exc) => (t1, Exc)
  | (t1, SysExit code) => (t1, SysExit code)
  end.
Proof. reflexivity. Qed.

Lemma for_each_app {A} (xs ys : list A) (body : A -> M unit) (h : trace) :
  for_each (xs ++ ys) body h =
  match for_each xs body h with
  | (t1, Ok _) => let (t2, r) := for_each ys body (h ++ t1) in (t1 ++ t2, r)
  | (t1, Exc) => (t1, Exc)
  | (t1, SysExit code) => (t1, SysExit code)
  end.
Proof.
  revert h. induction xs as [|x xs IH]; intros h.
  - simpl. unfold ret. rewrite app_nil_r.
    destruct (for_each ys body h) as [t r]. reflexivity.
  - rewrite <- app_comm_cons, !for_each_cons.
    destruct (body x h) as [t1 [[]| |code]]; try reflexivity.
    rewrite IH. destruct (for_each xs body (h ++ t1)) as [t2 [[]| |c2]]; try reflexivity.
    rewrite <- !app_assoc.
    destruct (for_each ys body (h ++ t1 ++ t2)) as [t3 r3]. now rewrite app_assoc.
Qed.

Section BatchLoopFacts.

Variable mk : list string -> answer Z -> event.
Variable oracle : trace -> list string -> answer Z.
Variable status : nat -> nat -> Z -> log_line.
Variable fatal : log_line.
Variable members : list string.

Lemma batch_step_eq (i : nat) (h : trace) :
  batch_step mk oracle status fatal members i h =
  let batch := PyStr.slice members i (i + chunk_size) in
  match oracle h batch with
  | Returns code =>
      ([mk batch (Returns code); EvPrint (status i (i + chunk_size) code); EvSleep 1],
       Ok tt)
  | Raises => ([mk batch Raises; EvPrint fatal; EvExit 1], SysExit 1)
  end.
Proof.
  unfold batch_step, bind, try_except, send, print, sleep, sys_exit, lift_answer.
  simpl. destruct (oracle h (PyStr.slice members i (i + chunk_size))); reflexivity.
Qed.

Lemma batch_loop_phase (idxs : list nat) (h : trace) :
  phase mk status fatal members idxs
    (fst (batch_loop mk oracle status fatal members idxs h))
    (snd (batch_loop mk oracle status fatal members idxs h)).
Proof.
  revert h. induction idxs as [|i idxs IH]; intros h.
  - apply phase_done.
  - unfold batch_loop. rewrite for_each_cons, batch_step_eq. cbv zeta.
    destruct (oracle h (PyStr.slice members i (i + chunk_size))) as [code|].
    + specialize (IH (h ++ [mk (PyStr.slice members i (i + chunk_size)) (Returns code);
                             EvPrint (status i (i + chunk_size) code); EvSleep 1])).
      unfold batch_loop in IH.
      destruct (for_each idxs (batch_step mk oracle status fatal members) _)
        as [t r].
      simpl in *. now apply phase_returned.
    + simpl. apply phase_raised.
Qed.

(** A batch loop ends normally or with [sys.exit(1)], never otherwise. *)
Lemma phase_result idxs t r :
  phase mk status fatal members idxs t r -> r = Ok tt \/ r = SysExit 1.
Proof. induction 1; auto. Qed.

End BatchLoopFacts.

Section PhasesFacts.

Variable world : env.
Variable cfg : config.
Variable uw_group local_group : string.

(** [reconcile] with its two loops named. *)
Lemma reconcile_eq (uw_list local_list : list string) :
  reconcile world cfg uw_group local_group uw_list local_list =
  ('(add_members, remove_members) <-
     (if negb (PyStr.set_eqb local_list uw_list) then
        add_loop world cfg uw_group local_group
          (collect_missing local_list uw_list) ;;
        remove_loop world cfg uw_group local_group
          (collect_missing uw_list local_list) ;;
        ret (collect_missing local_list uw_list,
             collect_missing uw_list local_list)
      else ret ([], [])) ;;
   print (Summary uw_group local_group
            (List.length add_members) (List.length remove_members))).
Proof. reflexivity. Qed.

Lemma add_loop_phase (members : list string) (h t : trace) (r : result unit) :
  add_loop world cfg uw_group local_group members h = (t, r) ->
  add_phase cfg uw_group local_group members t r.
Proof.
  intros H. unfold add_phase.
  pose proof (batch_loop_phase (mk_put cfg uw_group) (put_oracle world cfg uw_group)
                (StatusAdd uw_group local_group) FatalAdding members
                (PyStr.range0 (List.length members) chunk_size) h) as P.
  unfold add_loop in H. rewrite H in P. exact P.
Qed.

Lemma remove_loop_phase (members : list string) (h t : trace) (r : result unit) :
  remove_loop world cfg uw_group local_group members h = (t, r) ->
  remove_phase cfg uw_group local_group members t r.
Proof.
  intros H. unfold remove_phase.
  pose proof (batch_loop_phase (mk_delete cfg uw_group)
                (delete_oracle world cfg uw_group)
                (StatusRemove uw_group local_group) FatalRemoving members
                (PyStr.range0 (List.length members) chunk_size) h) as P.
  unfold remove_loop in H. rewrite H in P. exact P.
Qed.

Lemma reconcile_shape (uw_list local_list : list string) (h t : trace)
      (r : result unit) :
  reconcile world cfg uw_group local_group uw_list local_list h = (t, r) ->
  reconcile_run cfg uw_group local_group uw_list local_list t r.
Proof.
  rewrite reconcile_eq. rewrite bind_eq.
  destruct (PyStr.set_eqb local_list uw_list) eqn:E; cbn [negb].
  - simpl. intros H. inversion H; subst. now apply run_in_sync.
  - rewrite bind_eq.
    destruct (add_loop world cfg uw_group local_group
                (collect_missing local_list uw_list) h) as [t1 r1] eqn:E1.
    apply add_loop_phase in E1.
    pose proof E1 as R1. apply phase_result in R1. destruct R1 as [-> | ->].
    + rewrite bind_eq.
      destruct (remove_loop world cfg uw_group local_group
                  (collect_missing uw_list local_list) (h ++ t1))
        as [t2 r2] eqn:E2.
      apply remove_loop_phase in E2.
      pose proof E2 as R2. apply phase_result in R2. destruct R2 as [-> | ->].
      * simpl. rewrite app_nil_r. rewrite <- app_assoc.
        intros H. inversion H; subst. now apply run_complete.
      * intros H. inversion H; subst. now apply run_remove_fatal.
    + intros H. inversion H; subst. now apply run_add_fatal.
Qed.

End PhasesFacts.

(* ================================================================== *)
(** ** What the traces of the two phases contain *)
(* ================================================================== *)

Lemma put_batches_app (t1 t2 : trace) :
  put_batches (t1 ++ t2) = put_batches t1 ++ put_batches t2.
Proof.
  induction t1 as [|e t1 IH]; [reflexivity|].
  destruct e; simpl; rewrite IH; reflexivity.
Qed.

Lemma delete_batches_app (t1 t2 : trace) :
  delete_batches (t1 ++ t2) = delete_batches t1 ++ delete_batches t2.
Proof.
  induction t1 as [|e t1 IH]; [reflexivity|].
  destruct e; simpl; rewrite IH; reflexivity.
Qed.

Section PhaseFacts.

Variable cfg : config.

Variable uw_group local_group : string.

Variable members : list string.

Let slice_at (i : nat) : list string := PyStr.slice members i (i + chunk_size).

Lemma put_phase_batches idxs t r :
  phase (mk_put cfg uw_group) (StatusAdd uw_group local_group) FatalAdding
        members idxs t r ->
  delete_batches t = [] /\
  (exists k, put_batches t = map slice_at (firstn k idxs)) /\
  (r = Ok tt -> put_batches t = map slice_at idxs
                /\ Forall (fun e => call_raised e = false) t).
Proof.
  induction 1 as [|i idxs code t r _ [IHd [[k IHk] IHok]]|i idxs].
  - repeat split; auto. now exists 0.
  - simpl. split; [assumption|]. split.
    + exists (S k). simpl. now rewrite IHk.
    + intros Hr. destruct (IHok Hr) as [Hp Hn]. split.
      * now rewrite Hp.
      * repeat constructor. assumption.
  - simpl. split; [reflexivity|]. split.
    + now exists 1.
    + discriminate.
Qed.

Lemma delete_phase_batches idxs t r :
  phase (mk_delete cfg uw_group) (StatusRemove uw_group local_group) FatalRemoving
        members idxs t r ->
  put_batches t = [] /\
  (exists k, delete_batches t = map slice_at (firstn k idxs)) /\
  (r = Ok tt -> delete_batches t = map slice_at idxs
                /\ Forall (fun e => call_raised e = false) t).
Proof.
  induction 1 as [|i idxs code t r _ [IHd [[k IHk] IHok]]|i idxs].
  - repeat split; auto. now exists 0.
  - simpl. split; [assumption|]. split.
    + exists (S k). simpl. now rewrite IHk.
    + intros Hr. destruct (IHok Hr) as [Hp Hn]. split.
      * now rewrite Hp.
      * repeat constructor. assumption.
  - simpl. split; [reflexivity|]. split.
    + now exists 1.
    + discriminate.
Qed.

(** No event of the add phase is a DELETE, none of the remove phase a PUT. *)
Lemma put_phase_no_delete idxs t r :
  phase (mk_put cfg uw_group) (StatusAdd uw_group local_group) FatalAdding
        members idxs t r ->
  Forall (fun e => is_delete e = false) t.
Proof. induction 1; repeat constructor; assumption. Qed.

Lemma delete_phase_no_put idxs t r :
  phase (mk_delete cfg uw_group) (StatusRemove uw_group local_group) FatalRemoving
        members idxs t r ->
  Forall (fun e => is_put e = false) t.
Proof. induction 1; repeat constructor; assumption. Qed.

End PhaseFacts.

(** The batches of a run of [reconcile]: always slices of at most
    [chunk_size] members, and all the slices of both lists when the run was
    not cut short. *)
Lemma reconcile_batches world cfg uw_group local_group uw_list local_list h t r :
  reconcile world cfg uw_group local_group uw_list local_list h = (t, r) ->
  Forall (fun b => List.length b <= chunk_size) (put_batches t) /\
  Forall (fun b => List.length b <= chunk_size) (delete_batches t) /\
  (r = Ok tt ->
   put_batches t = chunks (fst (delta local_list uw_list)) /\
   delete_batches t = chunks (snd (delta local_list uw_list)) /\
   Forall (fun e => call_raised e = false) t).
Proof.
  intros H. apply reconcile_shape in H. unfold delta.
  destruct H as [E | t1 E HA | t1 t2 E HA HR | t1 t2 E HA HR]; rewrite E; simpl negb;
    cbv iota; simpl fst; simpl snd.
  - simpl. repeat split; auto.
  - apply put_phase_batches in HA. destruct HA as [Hd [[k Hk] _]].
    rewrite Hd, Hk. repeat split; auto using map_firstn_bounded; discriminate.
  - apply put_phase_batches in HA. destruct HA as [Hd [[k Hk] _]].
    apply delete_phase_batches in HR. destruct HR as [Hp [[k' Hk'] _]].
    rewrite put_batches_app, delete_batches_app, Hd, Hk, Hp, Hk'. simpl.
    rewrite app_nil_r.
    repeat split; auto using map_firstn_bounded; discriminate.
  - apply put_phase_batches in HA. destruct HA as [Hd [[k Hk] HokA]].
    apply delete_phase_batches in HR. destruct HR as [Hp [[k' Hk'] HokR]].
    destruct (HokA eq_refl) as [HA1 HA2]. destruct (HokR eq_refl) as [HR1 HR2].
    rewrite !put_batches_app, !delete_batches_app, Hd, Hp. simpl.
    rewrite !app_nil_r. split; [|split].
    + rewrite Hk. apply map_firstn_bounded.
    + rewrite Hk'. apply map_firstn_bounded.
    + intros _. split; [exact HA1|]. split; [exact HR1|].
      apply Forall_app. split; [assumption|]. apply Forall_app. split; [assumption|].
      repeat constructor.
Qed.

(** Whatever way the run ends, the batches sent are the first slices of
    each list, in order. *)
Lemma reconcile_batches_prefix world cfg uw_group local_group uw_list local_list
      h t r :
  reconcile world cfg uw_group local_group uw_list local_list h = (t, r) ->
  (exists k, put_batches t = firstn k (chunks (fst (delta local_list uw_list)))) /\
  (exists k, delete_batches t = firstn k (chunks (snd (delta local_list uw_list)))).
Proof.
  intros H. apply reconcile_shape in H. unfold delta, chunks.
  destruct H as [E | t1 E HA | t1 t2 E HA HR | t1 t2 E HA HR]; rewrite E; simpl negb;
    cbv iota; simpl fst; simpl snd.
  - split; exists 0; reflexivity.
  - apply put_phase_batches in HA. destruct HA as [Hd [[k Hk] _]].
    rewrite Hd, Hk. split; [exists k | exists 0]; [apply eq_sym, firstn_map | reflexivity].
  - apply put_phase_batches in HA. destruct HA as [Hd [[k Hk] _]].
    apply delete_phase_batches in HR. destruct HR as [Hp [[k' Hk'] _]].
    rewrite put_batches_app, delete_batches_app, Hd, Hk, Hp, Hk'. simpl.
    rewrite app_nil_r. split; [exists k | exists k']; apply eq_sym, firstn_map.
  - apply put_phase_batches in HA. destruct HA as [Hd [[k Hk] _]].
    apply delete_phase_batches in HR. destruct HR as [Hp [[k' Hk'] _]].
    rewrite !put_batches_app, !delete_batches_app, Hd, Hk, Hp, Hk'. simpl.
    rewrite !app_nil_r. split; [exists k | exists k']; apply eq_sym, firstn_map.
Qed.

(** A run of [reconcile] that is not cut short ends with the summary line,
    which reports the sizes of the two lists of the delta. *)
Lemma reconcile_reports_delta world cfg uw_group local_group uw_list local_list h t :
  reconcile world cfg uw_group local_group uw_list local_list h = (t, Ok tt) ->
  exists t',
    t = t' ++ [EvPrint (Summary uw_group local_group
                        (List.length (fst (delta local_list uw_list)))
                        (List.length (snd (delta local_list uw_list))))].
Proof.
  intros H. apply reconcile_shape in H. unfold delta.
  inversion H as [E | | | t1 t2 E HA HR]; subst; rewrite E; simpl.
  - now exists [].
  - exists (t1 ++ t2). now rewrite <- app_assoc.
Qed.

(* ================================================================== *)
(** ** The runs of [sync_group] and of [main] *)
(* ================================================================== *)

Section RunsFacts.

Variable world : env.
Variable cfg : config.

(** [sync_group] once the two fetches are spelled out. *)
Lemma sync_group_eq uw_group local_group h :
  sync_group world cfg (uw_group, local_group) h =
  match requests_get world h (member_url cfg uw_group) with
  | Raises =>
      ([EvGet (member_url cfg uw_group) Raises; EvPrint FatalRetrieving; EvExit 1],
       SysExit 1)
  | Returns data =>
      let e1 := EvGet (member_url cfg uw_group) (Returns data) in
      match getent world (h ++ [e1]) local_group with
      | Raises =>
          ([e1; EvGetent local_group Raises; EvPrint FatalRetrieving; EvExit 1],
           SysExit 1)
      | Returns stdout =>
          let e2 := EvGetent local_group (Returns stdout) in
          match parse_getent stdout with
          | None => ([e1; e2; EvPrint FatalRetrieving; EvExit 1], SysExit 1)
          | Some local_list =>
              let (t, r) :=
                reconcile world cfg uw_group local_group
                  (select_members data) local_list (h ++ [e1; e2]) in
              (e1 :: e2 :: t, r)
          end
      end
  end.
Proof.
  unfold sync_group. rewrite bind_eq.
  unfold try_except, get_uw_group_members, get_local_group_members.
  rewrite !bind_eq.
  destruct (requests_get world h (member_url cfg uw_group)) as [data|];
    [|reflexivity].
  simpl lift_answer. cbv iota. unfold ret at 1. cbv iota beta.
  rewrite !bind_eq. rewrite app_nil_r.
  destruct (getent world (h ++ [EvGet (member_url cfg uw_group) (Returns data)])
              local_group) as [stdout|]; [|reflexivity].
  simpl lift_answer. cbv iota.
  destruct (parse_getent stdout) as [local_list|]; [|reflexivity].
  unfold ret. simpl. reflexivity.
Qed.

Lemma sync_group_shape pair h t r :
  sync_group world cfg pair h = (t, r) -> group_run cfg pair t r.
Proof.
  destruct pair as [uw_group local_group]. rewrite sync_group_eq.
  destruct (requests_get world h (member_url cfg uw_group)) as [data|].
  - cbv zeta.
    destruct (getent world _ local_group) as [stdout|].
    + destruct (parse_getent stdout) as [local_list|] eqn:P.
      * destruct (reconcile world cfg uw_group local_group (select_members data)
                    local_list _) as [t' r'] eqn:R.
        intros H. inversion H; subst.
        apply group_fetched with (local_list := local_list); [assumption|].
        eapply reconcile_shape; eassumption.
      * intros H. inversion H; subst. now apply group_getent_short.
    + intros H. inversion H; subst. apply group_getent_raised.
  - intros H. inversion H; subst. apply group_get_raised.
Qed.

Lemma reconcile_run_result uw_group local_group uw_list local_list t r :
  reconcile_run cfg uw_group local_group uw_list local_list t r ->
  r = Ok tt \/ r = SysExit 1.
Proof. destruct 1; auto. Qed.

Lemma group_run_result pair t r :
  group_run cfg pair t r -> r = Ok tt \/ r = SysExit 1.
Proof.
  destruct 1; auto. eapply reconcile_run_result; eassumption.
Qed.

Lemma main_loop_shape pairs h t r :
  main_loop world cfg pairs h = (t, r) -> main_run cfg pairs t r.
Proof.
  unfold main_loop. revert h t r.
  induction pairs as [|pair pairs IH]; intros h t r.
  - simpl. unfold ret. intros H. inversion H; subst. apply main_done.
  - rewrite for_each_cons.
    destruct (sync_group world cfg pair h) as [t1 r1] eqn:G.
    apply sync_group_shape in G.
    pose proof G as R. apply group_run_result in R. destruct R as [-> | ->].
    + destruct (for_each pairs (sync_group world cfg) (h ++ t1)) as [t2 r2] eqn:L.
      intros H. inversion H; subst. apply main_next; [assumption|].
      eapply IH; eassumption.
    + intros H. inversion H; subst. now apply main_fatal.
Qed.

(** The run never ends with an uncaught [Exception]: it returns or it
    leaves through [sys.exit(1)]. *)
Lemma main_run_result pairs t r :
  main_run cfg pairs t r -> r = Ok tt \/ r = SysExit 1.
Proof. induction 1; auto. Qed.

End RunsFacts.

(* ================================================================== *)
(** ** What follows a batch call *)
(* ================================================================== *)

Lemma call_protocol_app (t1 t2 : trace) :
  call_protocol t1 -> Forall (fun e => call_raised e = false) t1 ->
  call_protocol t2 -> call_protocol (t1 ++ t2).
Proof.
  intros H1 N H2. induction t1 as [|e t1 IH]; [exact H2|].
  simpl in *. destruct H1 as [He H1]. inversion N as [|? ? Ne N']; subst.
  split; [|now apply IH].
  unfold call_raised in Ne.
  destruct (call_answer e) as [[code|]|]; try discriminate; [|exact I].
  destruct He as [line [rest [-> Hl]]]. exists line, (rest ++ t2). now split.
Qed.

Lemma call_protocol_at (t pre post : trace) (e : event) :
  call_protocol t -> t = pre ++ e :: post ->
  match call_answer e with
  | Some (Returns code) =>
      exists line rest,
        post = EvPrint line :: EvSleep 1 :: rest /\ logged_status line = Some code
  | Some Raises =>
      exists line, post = [EvPrint line; EvExit 1] /\ is_fatal_line line = true
  | None => True
  end.
Proof.
  revert t. induction pre as [|x pre IH]; intros t H ->; simpl in H.
  - apply H.
  - eapply IH; [apply H | reflexivity].
Qed.

Section PhaseProtocol.

Variable mk : list string -> answer Z -> event.

Variable status : nat -> nat -> Z -> log_line.

Variable fatal : log_line.

Variable members : list string.

Hypothesis mk_answer : forall b a, call_answer (mk b a) = Some a.

Hypothesis status_logged : forall i j code, logged_status (status i j code) = Some code.

Hypothesis fatal_line : is_fatal_line fatal = true.

Lemma phase_protocol idxs t r :
  phase mk status fatal members idxs t r ->
  call_protocol t /\
  (r = Ok tt -> Forall (fun e => failed e = false) t) /\
  (r = SysExit 1 -> Exists (fun e => call_raised e = true) t) /\
  filter is_summary t = [].
Proof.
  assert (not_summary : forall b a, is_summary (mk b a) = false).
  { intros b a. pose proof (mk_answer b a) as Hm.
    destruct (mk b a); simpl in Hm; try discriminate; reflexivity. }
  induction 1 as [|i idxs code t r _ [IHp [IHok [IHx IHs]]]|i idxs].
  - simpl. repeat split; auto; discriminate.
  - split; [|split; [|split]]; [| | |simpl; rewrite not_summary;
      destruct (status i (i + chunk_size) code) eqn:S; try exact IHs;
      pose proof (status_logged i (i + chunk_size) code) as L; rewrite S in L;
      discriminate].
    + simpl. rewrite mk_answer. repeat split; eauto.
    + intros Hr. constructor.
      * pose proof (mk_answer (PyStr.slice members i (i + chunk_size))
                                (Returns code)) as Hm.
        destruct (mk _ _); simpl in Hm; try discriminate;
          inversion Hm; subst; reflexivity.
      * repeat constructor. auto.
    + intros Hr. do 3 apply Exists_cons_tl. auto.
  - split; [|split; [|split]].
    + simpl. rewrite mk_answer. repeat split; eauto.
    + discriminate.
    + intros _. apply Exists_cons_hd. unfold call_raised. now rewrite mk_answer.
    + simpl. rewrite not_summary. destruct fatal; try reflexivity; discriminate.
Qed.

End PhaseProtocol.

Lemma failed_not_raised (t : trace) :
  Forall (fun e => failed e = false) t -> Forall (fun e => call_raised e = false) t.
Proof.
  apply Forall_impl. intros e H. unfold failed in H.
  now apply orb_false_iff in H.
Qed.

Lemma raised_failed (t : trace) :
  Exists (fun e => call_raised e = true) t -> Exists (fun e => failed e = true) t.
Proof.
  apply Exists_impl. intros e H. unfold failed. rewrite H. apply orb_true_r.
Qed.

Lemma filter_summary_app (t1 t2 : trace) :
  filter is_summary (t1 ++ t2) = filter is_summary t1 ++ filter is_summary t2.
Proof. apply filter_app. Qed.

Section RunProtocol.

Variable cfg : config.

Lemma add_phase_protocol uw_group local_group members t r :
  add_phase cfg uw_group local_group members t r ->
  call_protocol t /\
  (r = Ok tt -> Forall (fun e => failed e = false) t) /\
  (r = SysExit 1 -> Exists (fun e => call_raised e = true) t) /\
  filter is_summary t = [].
Proof. apply phase_protocol; reflexivity. Qed.

Lemma remove_phase_protocol uw_group local_group members t r :
  remove_phase cfg uw_group local_group members t r ->
  call_protocol t /\
  (r = Ok tt -> Forall (fun e => failed e = false) t) /\
  (r = SysExit 1 -> Exists (fun e => call_raised e = true) t) /\
  filter is_summary t = [].
Proof. apply phase_protocol; reflexivity. Qed.

Lemma reconcile_run_protocol uw_group local_group uw_list local_list t r :
  reconcile_run cfg uw_group local_group uw_list local_list t r ->
  call_protocol t /\
  (r = Ok tt -> Forall (fun e => failed e = false) t
                /\ List.length (filter is_summary t) = 1) /\
  (r = SysExit 1 -> Exists (fun e => call_raised e = true) t).
Proof.
  destruct 1 as [E | t1 E HA | t1 t2 E HA HR | t1 t2 E HA HR].
  - simpl. repeat split; auto; discriminate.
  - apply add_phase_protocol in HA. destruct HA as [P [_ [X _]]].
    repeat split; auto; discriminate.
  - apply add_phase_protocol in HA. destruct HA as [P1 [N1 _]].
    apply remove_phase_protocol in HR. destruct HR as [P2 [_ [X2 _]]].
    split; [|split].
    + apply call_protocol_app; auto using failed_not_raised.
    + discriminate.
    + intros _. apply Exists_app. right. auto.
  - apply add_phase_protocol in HA. destruct HA as [P1 [N1 [_ S1]]].
    apply remove_phase_protocol in HR. destruct HR as [P2 [N2 [_ S2]]].
    split; [|split].
    + apply call_protocol_app; auto using failed_not_raised.
      apply call_protocol_app; auto using failed_not_raised. simpl. auto.
    + intros _. split.
      * apply Forall_app. split; [auto|]. apply Forall_app. split; [auto|].
        repeat constructor.
      * rewrite !filter_summary_app, S1, S2. reflexivity.
    + discriminate.
Qed.

Lemma group_run_protocol pair t r :
  group_run cfg pair t r ->
  call_protocol t /\
  (r = Ok tt -> Forall (fun e => failed e = false) t
                /\ List.length (filter is_summary t) = 1) /\
  (r = SysExit 1 -> Exists (fun e => failed e = true) t).
Proof.
  destruct 1 as [ug lg | ug lg data | ug lg data stdout P
                 | ug lg data stdout local_list t r P R].
  - simpl. repeat split; auto; discriminate.
  - simpl. repeat split; auto; discriminate.
  - simpl. repeat split; auto; try discriminate.
    intros _. apply Exists_cons_tl. apply Exists_cons_hd.
    unfold failed. simpl. now rewrite P.
  - apply reconcile_run_protocol in R. destruct R as [Pr [Hok Hx]].
    split; [|split].
    + simpl. auto.
    + intros Hr. destruct (Hok Hr) as [F S]. split.
      * constructor; [reflexivity|]. constructor; [|assumption].
        unfold failed. simpl. now rewrite P.
      * simpl. exact S.
    + intros Hr. do 2 apply Exists_cons_tl. apply raised_failed. auto.
Qed.

Lemma main_run_protocol pairs t r :
  main_run cfg pairs t r ->
  call_protocol t /\
  (r = Ok tt -> Forall (fun e => failed e = false) t
                /\ List.length (filter is_summary t) = List.length pairs) /\
  (r = SysExit 1 -> Exists (fun e => failed e = true) t).
Proof.
  induction 1 as [|pair pairs t1 t2 r G M [IHp [IHok IHx]]|pair pairs t1 G].
  - simpl. repeat split; auto; discriminate.
  - apply group_run_protocol in G. destruct G as [P1 [O1 _]].
    destruct (O1 eq_refl) as [F1 S1]. split; [|split].
    + apply call_protocol_app; auto using failed_not_raised.
    + intros Hr. destruct (IHok Hr) as [F2 S2]. split.
      * apply Forall_app. auto.
      * rewrite filter_summary_app, length_app, S1, S2. reflexivity.
    + intros Hr. apply Exists_app. right. auto.
  - apply group_run_protocol in G. destruct G as [P1 [_ X1]].
    repeat split; auto; discriminate.
Qed.

End RunProtocol.

(* ================================================================== *)
(** ** Order of the calls *)
(* ================================================================== *)

Lemma split_puts_before_deletes (ta tb : trace) :
  Forall (fun e => is_delete e = false) ta ->
  Forall (fun e => is_put e = false) tb ->
  puts_before_deletes (ta ++ tb).
Proof.
  intros Ha Hb i j e1 e2 H1 H2 P D.
  rewrite Forall_forall in Ha, Hb.
  destruct (le_lt_dec (List.length ta) i) as [Hi|Hi].
  - rewrite nth_error_app2 in H1 by assumption.
    apply nth_error_In, Hb in H1. congruence.
  - destruct (le_lt_dec (List.length ta) j) as [Hj|Hj]; [lia|].
    rewrite nth_error_app1 in H2 by assumption.
    apply nth_error_In, Ha in H2. congruence.
Qed.

Lemma reconcile_run_split cfg uw_group local_group uw_list local_list t r :
  reconcile_run cfg uw_group local_group uw_list local_list t r ->
  exists ta tb, t = ta ++ tb /\
    Forall (fun e => is_delete e = false) ta /\
    Forall (fun e => is_put e = false) tb.
Proof.
  destruct 1 as [E | t1 E HA | t1 t2 E HA HR | t1 t2 E HA HR].
  - exists [], [EvPrint (Summary uw_group local_group 0 0)].
    repeat split; repeat constructor.
  - exists t1, []. rewrite app_nil_r. split; [reflexivity|]. split.
    + eapply put_phase_no_delete; eassumption.
    + constructor.
  - exists t1, t2. split; [reflexivity|]. split.
    + eapply put_phase_no_delete; eassumption.
    + eapply delete_phase_no_put; eassumption.
  - eexists t1, (t2 ++ [_]). split; [reflexivity|]. split.
    + eapply put_phase_no_delete; eassumption.
    + apply Forall_app. split.
      * eapply delete_phase_no_put; eassumption.
      * repeat constructor.
Qed.

Lemma group_run_split cfg pair t r :
  group_run cfg pair t r ->
  exists ta tb, t = ta ++ tb /\
    Forall (fun e => is_delete e = false) ta /\
    Forall (fun e => is_put e = false) tb.
Proof.
  destruct 1 as [ug lg | ug lg data | ug lg data stdout P
                 | ug lg data stdout local_list t r P R].
  - eexists _, []. rewrite app_nil_r. repeat split; repeat constructor.
  - eexists _, []. rewrite app_nil_r. repeat split; repeat constructor.
  - eexists _, []. rewrite app_nil_r. repeat split; repeat constructor.
  - apply reconcile_run_split in R. destruct R as [ta [tb [-> [Ha Hb]]]].
    exists (EvGet (member_url cfg ug) (Returns data)
              :: EvGetent lg (Returns stdout) :: ta), tb.
    repeat split; try assumption. repeat constructor. assumption.
Qed.

(* ================================================================== *)
(** ** The identifier check *)
(* ================================================================== *)

Lemma m_eol pos s : Re.m Re.Eol pos s (fun _ _ => true) = at_eol s.
Proof.
  destruct s as [|c [|d r]]; simpl; try reflexivity. apply andb_true_r.
Qed.

Lemma m_rep_0 r pos s k : Re.m (Re.Rep r 0 0) pos s k = k pos s.
Proof. reflexivity. Qed.

Lemma m_rep_S r n pos s k :
  Re.m (Re.Rep r 0 (S n)) pos s k =
  Re.m r pos s (fun pos' s' => Re.m (Re.Rep r 0 n) pos' s' k) || k pos s.
Proof. reflexivity. Qed.

Lemma append_nil_r s : (s ++ "")%string = s.
Proof. induction s as [|c s IH]; simpl; congruence. Qed.

Lemma m_rep_class ranges n : forall pos s k,
  Re.m (Re.Rep (Re.Class ranges) 0 n) pos s k = true <->
  exists body tail,
    s = (body ++ tail)%string /\ String.length body <= n /\
    all_in_class ranges body = true /\ k (pos + String.length body) tail = true.
Proof.
  induction n as [|n IH]; intros pos s k.
  - rewrite m_rep_0. split.
    + intros H. exists EmptyString, s. simpl. rewrite Nat.add_0_r. auto.
    + intros [body [tail [-> [Hlen [_ Hk]]]]].
      destruct body; simpl in *; [|lia]. now rewrite Nat.add_0_r in Hk.
  - rewrite m_rep_S, orb_true_iff. split.
    + intros [H|H].
      * simpl in H. destruct s as [|c s']; [discriminate|].
        apply andb_true_iff in H. destruct H as [Hc H].
        apply IH in H. destruct H as [body [tail [-> [Hlen [Hall Hk]]]]].
        exists (String c body), tail. simpl. rewrite Hc, Hall.
        replace (pos + S (String.length body)) with (S pos + String.length body) by lia.
        repeat split; auto. lia.
      * exists EmptyString, s. simpl. rewrite Nat.add_0_r. repeat split; auto. lia.
    + intros [body [tail [-> [Hlen [Hall Hk]]]]].
      destruct body as [|c body].
      * right. simpl in *. now rewrite Nat.add_0_r in Hk.
      * left. simpl in *. apply andb_true_iff in Hall. destruct Hall as [Hc Hall].
        rewrite Hc. simpl. apply IH. exists body, tail.
        replace (S pos + String.length body) with (pos + S (String.length body)) by lia.
        repeat split; auto. lia.
Qed.

Lemma at_eol_true s : at_eol s = true <-> s = EmptyString \/ s = nl.
Proof.
  destruct s as [|c [|d r]]; simpl.
  - tauto.
  - rewrite Ascii.eqb_eq. unfold nl. split.
    + intros ->. now right.
    + intros [H|H]; [discriminate | now inversion H].
  - split; [discriminate|]. unfold nl. intros [H|H]; discriminate.
Qed.

Lemma m_cat r1 r2 pos s k :
  Re.m (Re.Cat r1 r2) pos s k = Re.m r1 pos s (fun pos' s' => Re.m r2 pos' s' k).
Proof. reflexivity. Qed.

Lemma m_bol s k : Re.m Re.Bol 0 s k = k 0 s.
Proof. reflexivity. Qed.

Lemma m_class ranges pos s k :
  Re.m (Re.Class ranges) pos s k =
  match s with
  | EmptyString => false
  | String c s' => Re.in_class c ranges && k (S pos) s'
  end.
Proof. reflexivity. Qed.

Lemma valid_netid_shape s :
  valid_netid s = true <->
  exists c body tail,
    s = String c (body ++ tail) /\ Re.in_class c lower = true /\
    String.length body <= 7 /\ all_in_class lower_alnum body = true /\
    (tail = EmptyString \/ tail = nl).
Proof.
  unfold valid_netid, Re.re_match, netid_pattern.
  rewrite m_cat, m_bol, m_cat, m_class.
  destruct s as [|c s].
  - split; [discriminate|]. intros [c [body [tail [H _]]]]. discriminate.
  - rewrite andb_true_iff, m_cat, m_rep_class. split.
    + intros [Hc [body [tail [-> [Hlen [Hall Hk]]]]]].
      rewrite m_eol in Hk. apply at_eol_true in Hk.
      exists c, body, tail. repeat split; auto.
    + intros [c' [body [tail [Heq [Hc [Hlen [Hall Ht]]]]]]].
      inversion Heq; subst c' s. split; [exact Hc|].
      exists body, tail. rewrite m_eol. repeat split; auto.
      now apply at_eol_true.
Qed.

Lemma netid_anchored_shape s :
  netid_anchored s = true <->
  exists c body,
    s = String c body /\ Re.in_class c lower = true /\
    String.length body <= 7 /\ all_in_class lower_alnum body = true.
Proof.
  destruct s as [|c r]; simpl.
  - split; [discriminate|]. intros [c [body [H _]]]. discriminate.
  - rewrite !andb_true_iff, Nat.leb_le. split.
    + intros [[Hc Hlen] Hall]. exists c, r. repeat split; auto.
    + intros [c' [body [Heq [Hc [Hlen Hall]]]]]. inversion Heq; subst. repeat split; auto.
Qed.

(** What the check accepts: the identifiers the pattern is meant for, and
    each of them followed by one newline. *)
Lemma valid_netid_iff s :
  valid_netid s = true <->
  netid_anchored s = true \/
  exists s0, s = (s0 ++ nl)%string /\ netid_anchored s0 = true.
Proof.
  rewrite valid_netid_shape. split.
  - intros [c [body [tail [-> [Hc [Hlen [Hall [-> | ->]]]]]]]].
    + left. rewrite append_nil_r. apply netid_anchored_shape. exists c, body. repeat split; auto.
    + right. exists (String c body). split; [reflexivity|].
      apply netid_anchored_shape. exists c, body. repeat split; auto.
  - intros [H | [s0 [-> H]]]; apply netid_anchored_shape in H;
      destruct H as [c [body [-> [Hc [Hlen Hall]]]]].
    + exists c, body, EmptyString. rewrite append_nil_r. repeat split; auto.
    + exists c, body, nl. repeat split; auto.
Qed.

(* ================================================================== *)
(** ** The local reader and the empty name *)
(* ================================================================== *)

Lemma split_not_nil (sep : ascii) (s : string) : PyStr.split sep s <> [].
Proof.
  destruct s as [|c r]; simpl; [discriminate|].
  destruct (Ascii.eqb c sep); [discriminate|].
  destruct (PyStr.split sep r); discriminate.
Qed.

Lemma select_members_acc (data : list member_record) (acc : list string) :
  fold_left
    (fun group_members member =>
       if String.eqb (mtype member) "uwnetid" then
         if valid_netid (mid member) then group_members ++ [mid member]
         else group_members
       else group_members)
    data acc
  = acc ++ map mid (filter (fun member => String.eqb (mtype member) "uwnetid"
                                          && valid_netid (mid member)) data).
Proof.
  revert acc. induction data as [|member data IH]; intros acc; simpl.
  - now rewrite app_nil_r.
  - rewrite IH. destruct (String.eqb (mtype member) "uwnetid"); simpl;
      [|reflexivity].
    destruct (valid_netid (mid member)); simpl; [|reflexivity].
    now rewrite <- app_assoc.
Qed.

(** Every identifier kept from the listing passed the check. *)
Lemma select_members_valid (data : list member_record) (m : string) :
  In m (select_members data) -> valid_netid m = true.
Proof.
  unfold select_members. rewrite select_members_acc. simpl.
  rewrite in_map_iff. intros [member [<- Hin]].
  apply filter_In in Hin. destruct Hin as [_ Hv].
  now apply andb_true_iff in Hv.
Qed.

Lemma empty_not_selected (data : list member_record) :
  PyStr.mem "" (select_members data) = false.
Proof.
  apply mem_false. intros Hin. apply select_members_valid in Hin. discriminate.
Qed.

Lemma delta_empty_name (uw_list : list string) :
  PyStr.mem "" uw_list = false -> delta [""] uw_list = ([""], uw_list).
Proof.
  intros H. unfold delta, PyStr.set_eqb. simpl. rewrite H. simpl.
  rewrite collect_missing_filter. simpl. rewrite H. simpl. f_equal.
  apply collect_missing_all. intros m Hm [Hin|[]]. subst m.
  apply mem_In in Hm. congruence.
Qed.

Lemma reconcile_empty_name world cfg uw_group local_group uw_list h :
  PyStr.mem "" uw_list = false ->
  exists ans rest r,
    reconcile world cfg uw_group local_group uw_list [""] h
    = (EvPut (members_url cfg uw_group [""]) [""] ans :: rest, r).
Proof.
  intros H. rewrite reconcile_eq, bind_eq.
  assert (E : PyStr.set_eqb [""] uw_list = false).
  { unfold PyStr.set_eqb. simpl. now rewrite H. }
  rewrite E. cbn [negb]. rewrite bind_eq.
  assert (A : collect_missing [""] uw_list = [""]).
  { pose proof (delta_empty_name uw_list H) as D. unfold delta in D.
    rewrite E in D. simpl in D. congruence. }
  rewrite A. unfold add_loop, batch_loop.
  change (PyStr.range0 (List.length [""]) chunk_size) with [0].
  rewrite for_each_cons, batch_step_eq. cbv zeta.
  change (PyStr.slice [""] 0 (0 + chunk_size)) with [""].
  unfold mk_put.
  destruct (put_oracle world cfg uw_group h [""]) as [code|].
  - simpl for_each. unfold ret at 1. cbv iota beta.
    match goal with
    | |- context [bind ?c ?f ?hh] => destruct (bind c f hh) as [t2 [a| |c2]]
    end.
    + match goal with
      | |- context [let (_, _) := ?x in _] => destruct x as [t3 r3]
      end.
      eexists _, _, _. simpl. reflexivity.
    + eexists _, _, _. simpl. reflexivity.
    + eexists _, _, _. simpl. reflexivity.
  - eexists _, _, _. reflexivity.
Qed.

Lemma sync_group_fetch_fails world cfg uw_group local_group h :
  fetch_fails world cfg uw_group local_group h ->
  exists fetches,
    sync_group world cfg (uw_group, local_group) h
    = (fetches ++ [EvPrint FatalRetrieving; EvExit 1], SysExit 1) /\
    Forall (fun e => is_call e = false) fetches.
Proof.
  intros F. rewrite sync_group_eq.
  destruct F as [G | [data [G [E | [stdout [E P]]]]]]; rewrite G; cbv zeta.
  - exists [EvGet (member_url cfg uw_group) Raises].
    split; [reflexivity | repeat constructor].
  - rewrite E.
    exists [EvGet (member_url cfg uw_group) (Returns data); EvGetent local_group Raises].
    split; [reflexivity | repeat constructor].
  - rewrite E, P.
    exists [EvGet (member_url cfg uw_group) (Returns data);
            EvGetent local_group (Returns stdout)].
    split; [reflexivity | repeat constructor].
Qed.

(* ================================================================== *)
(** ** A phase that is cut short *)
(* ================================================================== *)

Lemma put_phase_cut cfg uw_group local_group members idxs t :
  phase (mk_put cfg uw_group) (StatusAdd uw_group local_group) FatalAdding
        members idxs t (SysExit 1) ->
  exists k,
    k < List.length idxs /\
    put_batches t
    = map (fun i => PyStr.slice members i (i + chunk_size)) (firstn (S k) idxs).
Proof.
  remember (SysExit 1) as r eqn:Hr.
  induction 1 as [|i idxs code t r _ IH|i idxs].
  - discriminate.
  - destruct (IH Hr) as [k [Hk Hb]]. exists (S k). split; [simpl; lia|].
    simpl in *. now rewrite Hb.
  - exists 0. split; [simpl; lia | reflexivity].
Qed.

Lemma delete_phase_cut cfg uw_group local_group members idxs t :
  phase (mk_delete cfg uw_group) (StatusRemove uw_group local_group) FatalRemoving
        members idxs t (SysExit 1) ->
  exists k,
    k < List.length idxs /\
    delete_batches t
    = map (fun i => PyStr.slice members i (i + chunk_size)) (firstn (S k) idxs).
Proof.
  remember (SysExit 1) as r eqn:Hr.
  induction 1 as [|i idxs code t r _ IH|i idxs].
  - discriminate.
  - destruct (IH Hr) as [k [Hk Hb]]. exists (S k). split; [simpl; lia|].
    simpl in *. now rewrite Hb.
  - exists 0. split; [simpl; lia | reflexivity].
Qed.

(** A run of [reconcile] that ends in the fatal exit stopped at a call that
    raised: the batches sent are the slices up to and including that one,
    either of the add list, with no DELETE made, or of the remove list after
    all the slices of the add list. *)
Lemma reconcile_batches_cut world cfg uw_group local_group uw_list local_list h t :
  reconcile world cfg uw_group local_group uw_list local_list h = (t, SysExit 1) ->
  (exists k,
     k < List.length (chunks (fst (delta local_list uw_list))) /\
     put_batches t = firstn (S k) (chunks (fst (delta local_list uw_list))) /\
     delete_batches t = []) \/
  (put_batches t = chunks (fst (delta local_list uw_list)) /\
   exists k,
     k < List.length (chunks (snd (delta local_list uw_list))) /\
     delete_batches t = firstn (S k) (chunks (snd (delta local_list uw_list)))).
Proof.
  intros H. apply reconcile_shape in H. unfold delta, chunks.
  inversion H as [| t1 E HA | t1 t2 E HA HR |]; subst; rewrite E; simpl negb;
    cbv iota; simpl fst; simpl snd.
  - left. pose proof HA as HC. apply put_phase_cut in HC.
    destruct HC as [k [Hk Hb]].
    apply put_phase_batches in HA. destruct HA as [Hd _].
    exists k. rewrite length_map, firstn_map. auto.
  - right. apply put_phase_batches in HA. destruct HA as [Hd [_ HokA]].
    destruct (HokA eq_refl) as [HA1 _].
    pose proof HR as HC. apply delete_phase_cut in HC.
    destruct HC as [k [Hk Hb]].
    apply delete_phase_batches in HR. destruct HR as [Hp _].
    rewrite put_batches_app, delete_batches_app, Hd, Hp, HA1, Hb.
    rewrite app_nil_r. simpl app. split; [reflexivity|].
    exists k. rewrite length_map, firstn_map. auto.
Qed.

(* ================================================================== *)
(** ** The properties of the specification *)
(* ================================================================== *)

(** C1. For every local list L and remote list R, the add list of the delta
    holds exactly the members of L that are not in R, the remove list
    exactly the members of R that are not in L, and no member is in both. *)
Theorem delta_exact (local_list uw_list : list string) (m : string) :
  (In m (fst (delta local_list uw_list)) <-> In m local_list /\ ~ In m uw_list) /\
  (In m (snd (delta local_list uw_list)) <-> In m uw_list /\ ~ In m local_list) /\
  ~ (In m (fst (delta local_list uw_list)) /\ In m (snd (delta local_list uw_list))).
Proof.
  split; [apply delta_add_In|]. split; [apply delta_remove_In|].
  rewrite delta_add_In, delta_remove_In. tauto.
Qed.

(** C2. The check of [get_uw_group_members] accepts the identifier abc
    followed by a newline, a string with a character that is neither a
    lowercase letter nor a digit, which the anchored pattern read as "the
    whole string" excludes: [$] also matches just before a final newline. *)
Theorem validator_accepts_trailing_newline :
  valid_netid ("abc" ++ nl) = true /\ netid_anchored ("abc" ++ nl) = false.
Proof. split; reflexivity. Qed.

(** C3, as stated, fails: with 120 members to add and one to remove, and a
    PUT that raises, the run makes one PUT and no DELETE before the fatal
    exit, not the three PUT and one DELETE of ceil(N/50). *)
Lemma batching_cut_short_by_raise :
  let t := fst (reconcile put_raises_world one_pair_cfg "u_dept_staff" "staff"
                  ["zz"] (many_names 120) []) in
  List.length (put_batches t) = 1 /\
  List.length (delete_batches t) = 0 /\
  ceil_div (List.length (fst (delta (many_names 120) ["zz"]))) 50 = 3 /\
  ceil_div (List.length (snd (delta (many_names 120) ["zz"]))) 50 = 1 /\
  ~ batching_as_stated t (fst (delta (many_names 120) ["zz"]))
                         (snd (delta (many_names 120) ["zz"])).
Proof.
  cbv zeta. split; [reflexivity|]. split; [reflexivity|].
  split; [reflexivity|]. split; [reflexivity|].
  intros [H _]. vm_compute in H. discriminate.
Qed.

(** C3, amended. In a run of the reconciliation every PUT and every DELETE
    carries at most 50 identifiers, and the batches sent are the first slices
    of the add list and of the remove list, in order.  When no batch call
    raises, so that the run is not cut short by the fatal exit, the add list
    of N members goes out in exactly ceil(N/50) PUT calls whose contents, put
    end to end, are the add list itself, and the same holds for the remove
    list and the DELETE calls.  When a call raises, the batches sent are the
    slices up to and including the one of that call: of the add list, with no
    DELETE made, or of the remove list after every slice of the add list. *)
Theorem batching_exact world cfg uw_group local_group uw_list local_list h t r :
  reconcile world cfg uw_group local_group uw_list local_list h = (t, r) ->
  Forall (fun b => List.length b <= 50) (put_batches t) /\
  Forall (fun b => List.length b <= 50) (delete_batches t) /\
  (exists k, put_batches t = firstn k (chunks (fst (delta local_list uw_list)))) /\
  (exists k, delete_batches t = firstn k (chunks (snd (delta local_list uw_list)))) /\
  (r = Ok tt ->
   List.length (put_batches t)
     = ceil_div (List.length (fst (delta local_list uw_list))) 50 /\
   List.concat (put_batches t) = fst (delta local_list uw_list) /\
   List.length (delete_batches t)
     = ceil_div (List.length (snd (delta local_list uw_list))) 50 /\
   List.concat (delete_batches t) = snd (delta local_list uw_list)) /\
  (r = SysExit 1 ->
   (exists k,
      k < List.length (chunks (fst (delta local_list uw_list))) /\
      put_batches t = firstn (S k) (chunks (fst (delta local_list uw_list))) /\
      delete_batches t = []) \/
   (put_batches t = chunks (fst (delta local_list uw_list)) /\
    exists k,
      k < List.length (chunks (snd (delta local_list uw_list))) /\
      delete_batches t = firstn (S k) (chunks (snd (delta local_list uw_list))))).
Proof.
  intros H. pose proof (reconcile_batches_prefix _ _ _ _ _ _ _ _ _ H) as [Pp Pd].
  pose proof H as Hb. apply reconcile_batches in Hb. destruct Hb as [Hp [Hd Hok]].
  split; [exact Hp|]. split; [exact Hd|]. split; [exact Pp|]. split; [exact Pd|].
  split.
  - intros Hr. destruct (Hok Hr) as [-> [-> _]].
    rewrite !chunks_length, !chunks_concat. auto.
  - intros Hr. subst r. now apply reconcile_batches_cut in H.
Qed.

Lemma batching_exact_witness :
  let t := fst (reconcile status_500_world one_pair_cfg "u_dept_staff" "staff"
                  ["zz"] (many_names 120) []) in
  List.length (put_batches t) = 3 /\
  List.concat (put_batches t) = many_names 120 /\
  List.length (delete_batches t) = 1 /\
  List.concat (delete_batches t) = ["zz"].
Proof.
  exact (proj1 (proj2 (proj2 (proj2 (proj2
           (batching_exact status_500_world one_pair_cfg "u_dept_staff" "staff"
              ["zz"] (many_names 120) []
              (fst (reconcile status_500_world one_pair_cfg "u_dept_staff" "staff"
                      ["zz"] (many_names 120) []))
              (snd (reconcile status_500_world one_pair_cfg "u_dept_staff" "staff"
                      ["zz"] (many_names 120) []))
              eq_refl)))))
         eq_refl).
Defined.

(** C4. In the events of one turn of the loop of [main], that is for one
    group, every PUT call comes strictly before every DELETE call. *)
Theorem adds_before_removes world cfg pair h t r :
  sync_group world cfg pair h = (t, r) ->
  forall i j e1 e2,
    nth_error t i = Some e1 -> nth_error t j = Some e2 ->
    is_put e1 = true -> is_delete e2 = true -> i < j.
Proof.
  intros H. apply sync_group_shape, group_run_split in H.
  destruct H as [ta [tb [-> [Ha Hb]]]].
  now apply split_puts_before_deletes.
Qed.

Lemma adds_before_removes_witness :
  let t := fst (run status_500_world one_pair_cfg) in
  nth_error t 2
    = Some (EvPut "https://gws.example/v3/group/u_dept_staff/member/al" ["al"]
              (Returns 500%Z)) /\
  nth_error t 5
    = Some (EvDelete "https://gws.example/v3/group/u_dept_staff/member/bob" ["bob"]
              (Returns 404%Z)) /\
  2 < 5.
Proof.
  split; [reflexivity|]. split; [reflexivity|].
  apply (adds_before_removes status_500_world one_pair_cfg
           ("u_dept_staff", "staff") []
           (fst (run status_500_world one_pair_cfg))
           (snd (run status_500_world one_pair_cfg))
           eq_refl 2 5
           (EvPut "https://gws.example/v3/group/u_dept_staff/member/al" ["al"]
                    (Returns 500%Z))
           (EvDelete "https://gws.example/v3/group/u_dept_staff/member/bob" ["bob"]
                       (Returns 404%Z)));
    reflexivity.
Defined.

(** C5. When the local and the remote list have the same members, the delta
    is empty and the reconciliation makes no PUT and no DELETE call: all it
    does is print the summary line with two zero counts. *)
Theorem in_sync_no_calls world cfg uw_group local_group uw_list local_list h :
  (forall m, In m local_list <-> In m uw_list) ->
  delta local_list uw_list = ([], []) /\
  reconcile world cfg uw_group local_group uw_list local_list h
    = ([EvPrint (Summary uw_group local_group 0 0)], Ok tt) /\
  Forall (fun e => is_call e = false)
    (fst (reconcile world cfg uw_group local_group uw_list local_list h)).
Proof.
  intros H. apply set_eqb_true in H.
  assert (R : reconcile world cfg uw_group local_group uw_list local_list h
              = ([EvPrint (Summary uw_group local_group 0 0)], Ok tt)).
  { unfold reconcile. rewrite H. reflexivity. }
  unfold delta. rewrite H, R. simpl. repeat split. repeat constructor.
Qed.

Lemma in_sync_no_calls_witness :
  reconcile (fixed_world Raises Raises Raises Raises) sample_cfg
    "u_dept_staff" "staff" ["al"; "bob"] ["bob"; "al"; "bob"] []
  = ([EvPrint (Summary "u_dept_staff" "staff" 0 0)], Ok tt).
Proof.
  apply (in_sync_no_calls (fixed_world Raises Raises Raises Raises) sample_cfg
           "u_dept_staff" "staff" ["al"; "bob"] ["bob"; "al"; "bob"] []).
  intros m. simpl. tauto.
Defined.

(** C6, as stated, fails: when the PUT raises, the run prints the fatal line
    and exits; no pause follows the call. *)
Lemma no_delay_after_raised_call :
  fst (run put_raises_world one_pair_cfg)
  = [EvGet "https://gws.example/v3/group/u_dept_staff/member"
       (Returns [uwnetid "bob"]);
     EvGetent "staff" (Returns "staff:x:50:al");
     EvPut "https://gws.example/v3/group/u_dept_staff/member/al" ["al"] Raises;
     EvPrint FatalAdding; EvExit 1] /\
  ~ delay_after_every_call (fst (run put_raises_world one_pair_cfg)).
Proof.
  split; [reflexivity|]. intros H.
  specialize (H [EvGet "https://gws.example/v3/group/u_dept_staff/member"
                   (Returns [uwnetid "bob"]);
                 EvGetent "staff" (Returns "staff:x:50:al")]
                (EvPut "https://gws.example/v3/group/u_dept_staff/member/al"
                   ["al"] Raises)
                [EvPrint FatalAdding; EvExit 1] eq_refl eq_refl).
  destruct H as [mid [rest [Heq _]]].
  destruct mid as [|x1 [|x2 [|x3 mid]]]; simpl in Heq; discriminate.
Qed.

(** C6, amended. In a run of the loop of [main], a batch call that returns a
    status code, whatever the code, is followed at once by its status line
    and then by the pause of one second; a batch call that raises is
    followed by the fatal line and the exit, with no pause. *)
Theorem delay_after_returned_call world cfg pairs h t r :
  main_loop world cfg pairs h = (t, r) ->
  forall pre e post,
    t = pre ++ e :: post -> is_call e = true ->
    (forall code, call_answer e = Some (Returns code) ->
       exists line rest, post = EvPrint line :: EvSleep 1 :: rest) /\
    (call_answer e = Some Raises ->
       exists line, post = [EvPrint line; EvExit 1]).
Proof.
  intros H pre e post Ht _.
  apply main_loop_shape, main_run_protocol in H. destruct H as [P _].
  pose proof (call_protocol_at t pre post e P Ht) as A.
  split.
  - intros code Hc. rewrite Hc in A. destruct A as [line [rest [-> _]]]. eauto.
  - intros Hc. rewrite Hc in A. destruct A as [line [-> _]]. eauto.
Qed.

Lemma delay_after_returned_call_witness :
  exists line rest,
    [EvPrint (StatusAdd "u_dept_staff" "staff" 0 50 500); EvSleep 1;
     EvDelete "https://gws.example/v3/group/u_dept_staff/member/bob" ["bob"]
       (Returns 404%Z);
     EvPrint (StatusRemove "u_dept_staff" "staff" 0 50 404); EvSleep 1;
     EvPrint (Summary "u_dept_staff" "staff" 1 1)]
    = EvPrint line :: EvSleep 1 :: rest.
Proof.
  refine (proj1 (delay_after_returned_call status_500_world one_pair_cfg
                   (group_map one_pair_cfg) []
                   (fst (run status_500_world one_pair_cfg))
                   (snd (run status_500_world one_pair_cfg)) eq_refl
                   [EvGet "https://gws.example/v3/group/u_dept_staff/member"
                      (Returns [uwnetid "bob"]);
                    EvGetent "staff" (Returns "staff:x:50:al")]
                   (EvPut "https://gws.example/v3/group/u_dept_staff/member/al"
                      ["al"] (Returns 500%Z))
                   _ eq_refl eq_refl) 500%Z eq_refl).
Defined.

(** C7. For a local group without members and the remote members a, ab and
    abc, the program does not make the one DELETE and no PUT of the
    scenario: the local reader gives the list holding the empty string, the
    delta has the empty string to add besides a, ab, abc to remove, and the
    run makes a PUT that carries the empty string before the DELETE of the
    three, and reports one addition and three removals. *)
Theorem empty_local_group_teardown_puts_empty_name :
  select_members [uwnetid "a"; uwnetid "ab"; uwnetid "abc"] = ["a"; "ab"; "abc"] /\
  parse_getent ("staff:x:50:" ++ nl) = Some [""] /\
  delta [""] ["a"; "ab"; "abc"] = ([""], ["a"; "ab"; "abc"]) /\
  run teardown_world one_pair_cfg
  = ([EvGet "https://gws.example/v3/group/u_dept_staff/member"
        (Returns [uwnetid "a"; uwnetid "ab"; uwnetid "abc"]);
      EvGetent "staff" (Returns ("staff:x:50:" ++ nl)%string);
      EvPut "https://gws.example/v3/group/u_dept_staff/member/" [""]
        (Returns 200%Z);
      EvPrint (StatusAdd "u_dept_staff" "staff" 0 50 200);
      EvSleep 1;
      EvDelete "https://gws.example/v3/group/u_dept_staff/member/a,ab,abc"
        ["a"; "ab"; "abc"] (Returns 200%Z);
      EvPrint (StatusRemove "u_dept_staff" "staff" 0 50 200);
      EvSleep 1;
      EvPrint (Summary "u_dept_staff" "staff" 1 3)],
     Ok tt) /\
  put_batches (fst (run teardown_world one_pair_cfg)) = [[""]] /\
  delete_batches (fst (run teardown_world one_pair_cfg)) = [["a"; "ab"; "abc"]].
Proof. repeat split; reflexivity. Qed.

(** C8. A batch call that returns a status code, 2xx or not, has the code
    printed and the run goes on: when no call raises, the reconciliation
    sends every batch, and when nothing raises at all the run ends normally
    with one summary line for each group.  A batch call that raises is
    followed by the fatal line and [sys.exit(1)].  The status code is never
    looked at. *)
Theorem status_logged_exception_fatal world cfg :
  (forall uw_group local_group uw_list local_list h t r,
     reconcile world cfg uw_group local_group uw_list local_list h = (t, r) ->
     Forall (fun e => call_raised e = false) t ->
     r = Ok tt /\
     put_batches t = chunks (fst (delta local_list uw_list)) /\
     delete_batches t = chunks (snd (delta local_list uw_list))) /\
  (forall pairs h t r,
     main_loop world cfg pairs h = (t, r) ->
     (forall pre e post code,
        t = pre ++ e :: post -> call_answer e = Some (Returns code) ->
        exists line rest,
          post = EvPrint line :: EvSleep 1 :: rest /\ logged_status line = Some code) /\
     (forall pre e post,
        t = pre ++ e :: post -> call_answer e = Some Raises ->
        r = SysExit 1 /\
        exists line, post = [EvPrint line; EvExit 1] /\ is_fatal_line line = true) /\
     (Forall (fun e => failed e = false) t ->
      r = Ok tt /\ List.length (filter is_summary t) = List.length pairs)).
Proof.
  split.
  - intros uw_group local_group uw_list local_list h t r H N.
    assert (Hr : r = Ok tt).
    { pose proof (reconcile_shape _ _ _ _ _ _ _ _ _ H) as Sh.
      pose proof Sh as R. apply reconcile_run_result in R.
      destruct R as [Hr|Hr]; [exact Hr|].
      apply reconcile_run_protocol in Sh. destruct Sh as [_ [_ X]].
      specialize (X Hr). apply Exists_exists in X. destruct X as [e [He Hx]].
      rewrite Forall_forall in N. rewrite (N e He) in Hx. discriminate. }
    split; [exact Hr|].
    apply reconcile_batches in H. destruct H as [_ [_ Hok]].
    destruct (Hok Hr) as [Hp [Hd _]]. auto.
  - intros pairs h t r H. apply main_loop_shape in H.
    pose proof H as R. apply main_run_result in R.
    apply main_run_protocol in H. destruct H as [P [Hok Hx]].
    split; [|split].
    + intros pre e post code Ht Hc.
      pose proof (call_protocol_at t pre post e P Ht) as A.
      now rewrite Hc in A.
    + intros pre e post Ht Hc.
      pose proof (call_protocol_at t pre post e P Ht) as A.
      rewrite Hc in A. split; [|exact A].
      destruct R as [Hr|Hr]; [|exact Hr].
      destruct (Hok Hr) as [F _]. rewrite Forall_forall in F.
      assert (Hin : In e t) by (subst t; apply in_elt).
      specialize (F e Hin). unfold failed, call_raised in F. rewrite Hc in F.
      rewrite orb_true_r in F. discriminate.
    + intros F. destruct R as [Hr|Hr].
      * split; [exact Hr|]. now apply Hok.
      * specialize (Hx Hr). apply Exists_exists in Hx.
        destruct Hx as [e [He Hf]]. rewrite Forall_forall in F.
        rewrite (F e He) in Hf. discriminate.
Qed.

Lemma status_logged_exception_fatal_witness :
  snd (run status_500_world one_pair_cfg) = Ok tt /\
  List.length (filter is_summary (fst (run status_500_world one_pair_cfg))) = 1.
Proof.
  apply (proj2 (status_logged_exception_fatal status_500_world one_pair_cfg)
               (group_map one_pair_cfg) []
               (fst (run status_500_world one_pair_cfg))
               (snd (run status_500_world one_pair_cfg)) eq_refl).
  repeat constructor.
Defined.

(** C9. When, in the loop of [main], one of the two fetches for a group
    raises, the run prints the fatal line and ends there with exit status 1:
    no PUT and no DELETE is made for that group, and the groups after it are
    not visited. *)
Theorem fetch_error_fatal world cfg before uw_group local_group after h t1 :
  main_loop world cfg before h = (t1, Ok tt) ->
  fetch_fails world cfg uw_group local_group (h ++ t1) ->
  exists fetches,
    main_loop world cfg (before ++ (uw_group, local_group) :: after) h
    = (t1 ++ fetches ++ [EvPrint FatalRetrieving; EvExit 1], SysExit 1) /\
    Forall (fun e => is_call e = false) fetches /\
    exit_status
      (snd (main_loop world cfg (before ++ (uw_group, local_group) :: after) h)) = 1.
Proof.
  intros H F. apply sync_group_fetch_fails in F. destruct F as [fetches [G C]].
  exists fetches.
  assert (E : main_loop world cfg (before ++ (uw_group, local_group) :: after) h
              = (t1 ++ fetches ++ [EvPrint FatalRetrieving; EvExit 1], SysExit 1)).
  { unfold main_loop in *. rewrite for_each_app, H, for_each_cons, G. reflexivity. }
  rewrite E. repeat split; assumption.
Qed.

Lemma fetch_error_fatal_witness :
  exists fetches,
    run get_raises_world sample_cfg
    = ([] ++ fetches ++ [EvPrint FatalRetrieving; EvExit 1], SysExit 1) /\
    Forall (fun e => is_call e = false) fetches /\
    exit_status (snd (run get_raises_world sample_cfg)) = 1.
Proof.
  apply (fetch_error_fatal get_raises_world sample_cfg [] "u_dept_staff" "staff"
           [("u_dept_admins", "wheel")] [] []).
  - reflexivity.
  - left. reflexivity.
Defined.

(** C10. The reader of the local group never gives an empty list.  For a
    record whose fourth field is empty it gives the list with the empty
    string as its only member; the delta then has the empty string to add,
    whatever the remote listing holds, and the first batch call for the group
    is a PUT that carries the empty string. *)
Theorem empty_local_group_adds_empty_name :
  (forall stdout, parse_getent stdout <> Some []) /\
  (forall stdout,
     nth_error (PyStr.split ":" (PyStr.strip stdout)) 3 = Some "" ->
     parse_getent stdout = Some [""]) /\
  (forall data, delta [""] (select_members data) = ([""], select_members data)) /\
  (forall world cfg uw_group local_group h data stdout,
     requests_get world h (member_url cfg uw_group) = Returns data ->
     getent world (h ++ [EvGet (member_url cfg uw_group) (Returns data)]) local_group
       = Returns stdout ->
     nth_error (PyStr.split ":" (PyStr.strip stdout)) 3 = Some "" ->
     exists ans rest r,
       sync_group world cfg (uw_group, local_group) h
       = (EvGet (member_url cfg uw_group) (Returns data)
            :: EvGetent local_group (Returns stdout)
            :: EvPut (members_url cfg uw_group [""]) [""] ans :: rest, r)).
Proof.
  assert (P : forall stdout,
             nth_error (PyStr.split ":" (PyStr.strip stdout)) 3 = Some "" ->
             parse_getent stdout = Some [""]).
  { intros stdout H. unfold parse_getent. now rewrite H. }
  split; [|split; [exact P|split]].
  - intros stdout. unfold parse_getent.
    destruct (nth_error _ 3) as [field|]; [|discriminate].
    intros H. inversion H as [H']. now apply split_not_nil in H'.
  - intros data. apply delta_empty_name, empty_not_selected.
  - intros world cfg uw_group local_group h data stdout G E F.
    rewrite sync_group_eq, G. cbv zeta. rewrite E, (P stdout F).
    destruct (reconcile_empty_name world cfg uw_group local_group
                (select_members data)
                (h ++ [EvGet (member_url cfg uw_group) (Returns data);
                       EvGetent local_group (Returns stdout)])
                (empty_not_selected data)) as [ans [rest [r R]]].
    rewrite R. eauto.
Qed.

Lemma empty_local_group_adds_empty_name_witness :
  exists ans rest r,
    sync_group empty_staff_world sample_cfg ("u_dept_staff", "staff") []
    = (EvGet (member_url sample_cfg "u_dept_staff") (Returns [uwnetid "bob"])
         :: EvGetent "staff" (Returns ("staff:x:50:" ++ nl)%string)
         :: EvPut (members_url sample_cfg "u_dept_staff" [""]) [""] ans
         :: rest, r).
Proof.
  apply (proj2 (proj2 (proj2 empty_local_group_adds_empty_name))
           empty_staff_world sample_cfg "u_dept_staff" "staff" []
           [uwnetid "bob"] ("staff:x:50:" ++ nl)%string);
    reflexivity.
Defined.

(* ================================================================== *)
(** ** Splitting and joining *)
(* ================================================================== *)

Lemma count_char_app (c : ascii) (a b : string) :
  count_char c (a ++ b) = count_char c a + count_char c b.
Proof. induction a as [|d a IH]; simpl; [reflexivity|]. rewrite IH. lia. Qed.

Lemma split_length (sep : ascii) (s : string) :
  List.length (PyStr.split sep s) = S (count_char sep s).
Proof.
  induction s as [|c r IH]; simpl; [reflexivity|].
  destruct (Ascii.eqb c sep); simpl.
  - now rewrite IH.
  - destruct (PyStr.split sep r) as [|p ps] eqn:E; simpl in *; lia.
Qed.

Lemma split_no_sep (sep : ascii) (s : string) :
  Forall (fun p => count_char sep p = 0) (PyStr.split sep s).
Proof.
  induction s as [|c r IH]; simpl.
  - repeat constructor.
  - destruct (Ascii.eqb c sep) eqn:E.
    + constructor; [reflexivity | exact IH].
    + destruct (PyStr.split sep r) as [|p ps].
      * repeat constructor. simpl. now rewrite E.
      * inversion IH; subst. constructor; [|assumption]. simpl. now rewrite E.
Qed.

Lemma join_cons (sep p q : string) (rest : list string) :
  PyStr.join sep (p :: q :: rest) = (p ++ sep ++ PyStr.join sep (q :: rest))%string.
Proof. reflexivity. Qed.

Lemma join_split (sep : ascii) (s : string) :
  PyStr.join (String sep EmptyString) (PyStr.split sep s) = s.
Proof.
  induction s as [|c r IH]; [reflexivity|]. cbn [PyStr.split].
  destruct (Ascii.eqb c sep) eqn:E.
  - apply Ascii.eqb_eq in E. subst c.
    destruct (PyStr.split sep r) as [|p ps] eqn:Sp.
    + now apply split_not_nil in Sp.
    + rewrite join_cons, IH. reflexivity.
  - destruct (PyStr.split sep r) as [|p [|q ps]] eqn:Sp.
    + now apply split_not_nil in Sp.
    + cbn [PyStr.join] in *. now rewrite IH.
    + rewrite join_cons in *. rewrite <- IH. reflexivity.
Qed.

Lemma split_plain (sep : ascii) (a : string) :
  count_char sep a = 0 -> PyStr.split sep a = [a].
Proof.
  induction a as [|c a IH]; simpl; [reflexivity|].
  destruct (Ascii.eqb c sep); [discriminate|]. simpl. intros H.
  now rewrite (IH H).
Qed.

Lemma split_app_sep (sep : ascii) (a b : string) :
  count_char sep a = 0 ->
  PyStr.split sep (a ++ String sep b) = a :: PyStr.split sep b.
Proof.
  induction a as [|c a IH]; simpl.
  - intros _. now rewrite Ascii.eqb_refl.
  - destruct (Ascii.eqb c sep); [discriminate|]. simpl. intros H.
    now rewrite (IH H).
Qed.

Lemma split_join (sep : ascii) (pieces : list string) :
  pieces <> [] ->
  Forall (fun p => count_char sep p = 0) pieces ->
  PyStr.split sep (PyStr.join (String sep EmptyString) pieces) = pieces.
Proof.
  induction pieces as [|p [|q rest] IH]; intros Hne Hall.
  - congruence.
  - simpl. inversion Hall; subst. now apply split_plain.
  - rewrite join_cons. inversion Hall; subst.
    change (p ++ String sep EmptyString ++ PyStr.join (String sep EmptyString) (q :: rest))%string
      with (p ++ String sep (PyStr.join (String sep EmptyString) (q :: rest)))%string.
    rewrite split_app_sep by assumption.
    rewrite IH; [reflexivity | discriminate | assumption].
Qed.

Lemma count_char_join (c : ascii) (sep : string) (pieces : list string) :
  count_char c sep = 0 ->
  Forall (fun p => count_char c p = 0) pieces ->
  count_char c (PyStr.join sep pieces) = 0.
Proof.
  intros Hs. induction pieces as [|p [|q rest] IH]; intros Hall.
  - reflexivity.
  - now inversion Hall.
  - rewrite join_cons, !count_char_app. inversion Hall; subst.
    rewrite IH by assumption. lia.
Qed.

(* ================================================================== *)
(** ** Stripping *)
(* ================================================================== *)

Lemma rstrip_snoc_space (s : string) (c : ascii) :
  PyStr.isspace c = true ->
  PyStr.rstrip (s ++ String c EmptyString) = PyStr.rstrip s.
Proof.
  intros Hc. induction s as [|a r IH].
  - cbn [append PyStr.rstrip]. now rewrite Hc.
  - cbn [append PyStr.rstrip]. now rewrite IH.
Qed.

Lemma lstrip_snoc_space (s : string) (c : ascii) :
  PyStr.isspace c = true ->
  PyStr.lstrip (s ++ String c EmptyString) =
  match PyStr.lstrip s with
  | EmptyString => EmptyString
  | kept => (kept ++ String c EmptyString)%string
  end.
Proof.
  intros Hc. induction s as [|a r IH].
  - cbn [append PyStr.lstrip]. now rewrite Hc.
  - cbn [append PyStr.lstrip]. destruct (PyStr.isspace a); [exact IH | reflexivity].
Qed.

Lemma strip_snoc_space (s : string) (c : ascii) :
  PyStr.isspace c = true ->
  PyStr.strip (s ++ String c EmptyString) = PyStr.strip s.
Proof.
  intros Hc. unfold PyStr.strip. rewrite (lstrip_snoc_space s c Hc).
  destruct (PyStr.lstrip s) as [|a r] eqn:E; [reflexivity|].
  now apply rstrip_snoc_space.
Qed.

(* ================================================================== *)
(** ** Further properties of the two readers *)
(* ================================================================== *)

(** X1. The remote reader keeps, in the order of the listing and as often
    as they occur, the ids of the records whose type is uwnetid and whose id
    passes the identifier check; every other record is dropped. *)
Theorem select_members_filter (data : list member_record) :
  select_members data
  = map mid (filter (fun member => String.eqb (mtype member) "uwnetid"
                                   && valid_netid (mid member)) data) /\
  (forall m, In m (select_members data) <->
             exists member, In member data /\ mtype member = "uwnetid" /\
                            mid member = m /\ valid_netid m = true).
Proof.
  assert (E : select_members data
              = map mid (filter (fun member => String.eqb (mtype member) "uwnetid"
                                               && valid_netid (mid member)) data)).
  { unfold select_members. now rewrite select_members_acc. }
  split; [exact E|]. intros m. rewrite E, in_map_iff. split.
  - intros [member [<- Hin]]. apply filter_In in Hin. destruct Hin as [Hin Hb].
    apply andb_true_iff in Hb. destruct Hb as [Ht Hv].
    apply String.eqb_eq in Ht. exists member. auto.
  - intros [member [Hin [Ht [<- Hv]]]]. exists member. split; [reflexivity|].
    apply filter_In. split; [assumption|].
    apply andb_true_iff. split; [now apply String.eqb_eq | assumption].
Qed.

Lemma string_length_app (a b : string) :
  String.length (a ++ b) = String.length a + String.length b.
Proof. induction a as [|d a IH]; simpl; [reflexivity|]. now rewrite IH. Qed.

Lemma class_excludes (body : string) (ch : ascii) :
  all_in_class lower_alnum body = true ->
  Re.in_class ch lower_alnum = false ->
  count_char ch body = 0.
Proof.
  induction body as [|d body IH]; simpl; [reflexivity|].
  intros H Hch. apply andb_true_iff in H. destruct H as [Hd Hb].
  destruct (Ascii.eqb d ch) eqn:E.
  - apply Ascii.eqb_eq in E. subst. congruence.
  - simpl. now apply IH.
Qed.

(** An accepted id has between one and nine characters and holds no comma
    and no slash. *)
Lemma valid_netid_plain (s : string) :
  valid_netid s = true ->
  1 <= String.length s <= 9 /\
  count_char ","%char s = 0 /\ count_char "/"%char s = 0.
Proof.
  intros H. apply valid_netid_shape in H.
  destruct H as [c [body [tail [-> [Hc [Hlen [Hall Ht]]]]]]].
  assert (Hcc : forall ch, Re.in_class ch lower_alnum = false ->
                           Ascii.eqb c ch = false).
  { intros ch Hch. destruct (Ascii.eqb c ch) eqn:E; [|reflexivity].
    apply Ascii.eqb_eq in E. subst ch.
    unfold lower, lower_alnum, Re.in_class in *. simpl in *.
    rewrite orb_false_r in Hc. rewrite Hc in Hch. discriminate. }
  simpl. rewrite string_length_app, !count_char_app.
  rewrite (Hcc ","%char eq_refl), (Hcc "/"%char eq_refl).
  rewrite (class_excludes body ","%char Hall eq_refl),
          (class_excludes body "/"%char Hall eq_refl).
  destruct Ht as [-> | ->]; simpl; repeat split; lia.
Qed.

(** X2. The identifier check accepts a string exactly when it is one
    lowercase letter followed by at most seven lowercase letters or digits,
    or such a string followed by a single newline.  An accepted id therefore
    has between one and nine characters and holds no comma and no slash. *)
Theorem valid_netid_exact (s : string) :
  (valid_netid s = true <->
   exists c body,
     Re.in_class c lower = true /\ String.length body <= 7 /\
     all_in_class lower_alnum body = true /\
     (s = String c body \/ s = String c (body ++ nl))) /\
  (valid_netid s = true ->
   1 <= String.length s <= 9 /\
   count_char ","%char s = 0 /\ count_char "/"%char s = 0).
Proof.
  split; [|apply valid_netid_plain].
  rewrite valid_netid_shape. split.
  - intros [c [body [tail [-> [Hc [Hlen [Hall [-> | ->]]]]]]]];
      exists c, body; repeat split; auto.
    left. now rewrite append_nil_r.
  - intros [c [body [Hc [Hlen [Hall [-> | ->]]]]]].
    + exists c, body, EmptyString. rewrite append_nil_r. repeat split; auto.
    + exists c, body, nl. repeat split; auto.
Qed.

Lemma valid_netid_exact_witness :
  1 <= String.length "abc123" <= 9 /\
  count_char ","%char "abc123" = 0 /\ count_char "/"%char "abc123" = 0.
Proof.
  apply (proj2 (valid_netid_exact "abc123")). reflexivity.
Defined.

(** X3. The local reader raises (IndexError) exactly when what [getent]
    printed, once stripped, holds fewer than three colons; in particular
    when it printed nothing, as for a group that does not exist. *)
Theorem parse_getent_raises_iff (stdout : string) :
  (parse_getent stdout = None <-> count_char ":"%char (PyStr.strip stdout) < 3) /\
  parse_getent "" = None.
Proof.
  split; [|reflexivity]. unfold parse_getent.
  destruct (nth_error (PyStr.split ":"%char (PyStr.strip stdout)) 3) as [field|] eqn:E.
  - split; [discriminate|]. intros H.
    assert (N : nth_error (PyStr.split ":"%char (PyStr.strip stdout)) 3 <> None)
      by congruence.
    apply nth_error_Some in N. rewrite split_length in N. lia.
  - split; [|reflexivity]. intros _.
    apply nth_error_None in E. rewrite split_length in E. lia.
Qed.

(** X4. White space after the record, such as the newline that ends the
    output of [getent], does not change what the local reader returns. *)
Theorem parse_getent_trailing_space (stdout : string) (c : ascii) :
  PyStr.isspace c = true ->
  parse_getent (stdout ++ String c EmptyString) = parse_getent stdout.
Proof.
  intros Hc. unfold parse_getent. now rewrite strip_snoc_space.
Qed.

Lemma parse_getent_trailing_space_witness :
  parse_getent ("staff:x:50:al,bob" ++ nl) = parse_getent "staff:x:50:al,bob".
Proof.
  apply (parse_getent_trailing_space "staff:x:50:al,bob" PyStr.newline).
  reflexivity.
Defined.

(** X5. For a record of four fields, name, password and group id free of
    colons, the local reader returns the members that were written in the
    fourth field separated by commas, when there is at least one member and
    no member holds a comma or a colon. *)
Theorem parse_getent_record (stdout name pw gid : string) (members : list string) :
  PyStr.strip stdout
    = (name ++ colon ++ pw ++ colon ++ gid ++ colon ++ PyStr.join comma members)%string ->
  count_char ":"%char name = 0 -> count_char ":"%char pw = 0 ->
  count_char ":"%char gid = 0 ->
  members <> [] ->
  Forall (fun m => count_char ","%char m = 0 /\ count_char ":"%char m = 0) members ->
  parse_getent stdout = Some members.
Proof.
  intros E Hn Hp Hg Hne Hall. unfold parse_getent. rewrite E. unfold colon.
  change (name ++ String ":"%char EmptyString ++ pw ++ String ":"%char EmptyString
            ++ gid ++ String ":"%char EmptyString ++ PyStr.join comma members)%string
    with (name ++ String ":"%char (pw ++ String ":"%char
            (gid ++ String ":"%char (PyStr.join comma members))))%string.
  rewrite !split_app_sep by assumption.
  rewrite split_plain.
  - simpl. f_equal. apply split_join; [assumption|].
    eapply Forall_impl; [|exact Hall]. simpl. tauto.
  - apply count_char_join; [reflexivity|].
    eapply Forall_impl; [|exact Hall]. simpl. tauto.
Qed.

Lemma parse_getent_record_witness :
  parse_getent ("staff:x:50:al,bob" ++ nl) = Some ["al"; "bob"].
Proof.
  apply (parse_getent_record ("staff:x:50:al,bob" ++ nl) "staff" "x" "50" ["al"; "bob"]);
    try reflexivity; [discriminate | repeat constructor].
Defined.

(** X6. Joining with commas and splitting at commas undo each other:
    splitting the joined list gives the list back when it is not empty and no
    member holds a comma, as is the case for every list the local reader
    returns; joining the pieces of a split string gives the string back. *)
Theorem join_split_round_trip :
  (forall members,
     members <> [] -> Forall (fun m => count_char ","%char m = 0) members ->
     PyStr.split ","%char (PyStr.join comma members) = members) /\
  (forall s, PyStr.join comma (PyStr.split ","%char s) = s) /\
  (forall stdout members,
     parse_getent stdout = Some members ->
     PyStr.split ","%char (PyStr.join comma members) = members).
Proof.
  split; [|split].
  - intros members Hne Hall. now apply split_join.
  - intros s. apply join_split.
  - intros stdout members H. unfold parse_getent in H.
    destruct (nth_error _ 3) as [field|]; [|discriminate].
    inversion H; subst. apply split_join.
    + apply split_not_nil.
    + apply split_no_sep.
Qed.

Lemma join_split_round_trip_witness :
  PyStr.split ","%char (PyStr.join comma ["al"; "bob"]) = ["al"; "bob"].
Proof.
  apply (proj1 join_split_round_trip ["al"; "bob"]);
    [discriminate | repeat constructor].
Defined.

(* ================================================================== *)
(** ** Further properties of the delta *)
(* ================================================================== *)

(** X7. Applying the delta to the remote list gives the local list: an
    identifier is in the local list exactly when it is in the remote list or
    the add list and not in the remove list.  A remote list with these
    members then yields an empty delta. *)
Theorem delta_converges (local_list uw_list : list string) :
  (forall m,
     In m local_list <->
     (In m uw_list \/ In m (fst (delta local_list uw_list))) /\
     ~ In m (snd (delta local_list uw_list))) /\
  (forall uw_list',
     (forall m, In m uw_list' <->
                (In m uw_list \/ In m (fst (delta local_list uw_list))) /\
                ~ In m (snd (delta local_list uw_list))) ->
     delta local_list uw_list' = ([], [])).
Proof.
  assert (A : forall m,
             In m local_list <->
             (In m uw_list \/ In m (fst (delta local_list uw_list))) /\
             ~ In m (snd (delta local_list uw_list))).
  { intros m. rewrite delta_add_In, delta_remove_In.
    destruct (in_dec string_dec m uw_list);
      destruct (in_dec string_dec m local_list); tauto. }
  split; [exact A|]. intros uw_list' H.
  assert (E : PyStr.set_eqb local_list uw_list' = true).
  { apply set_eqb_true. intros m. rewrite H. apply A. }
  unfold delta. now rewrite E.
Qed.

Lemma delta_converges_witness :
  delta ["al"; "bob"] ["bob"; "al"] = ([], []).
Proof.
  apply (proj2 (delta_converges ["al"; "bob"] ["bob"; "carl"]) ["bob"; "al"]).
  intros m. simpl. intuition (subst; try discriminate; auto).
Defined.

(** X8. With nothing on one side the delta is the whole other side: an empty
    remote list has every local member added and nothing removed, an empty
    local list has every remote member removed and nothing added. *)
Theorem delta_one_side_empty (members : list string) :
  delta members [] = (members, []) /\ delta [] members = ([], members).
Proof.
  assert (N : forall xs, collect_missing xs [] = xs).
  { intros xs. apply collect_missing_all. intros m _ []. }
  unfold delta. destruct members as [|x xs]; [split; reflexivity|].
  assert (E1 : PyStr.set_eqb (x :: xs) [] = false) by reflexivity.
  assert (E2 : PyStr.set_eqb [] (x :: xs) = false) by reflexivity.
  rewrite E1, E2. simpl negb. cbv iota. rewrite N. split; reflexivity.
Qed.

(** X9. The delta adds no repetition: when the local list has no duplicate
    the add list has none, and when the remote list has no duplicate the
    remove list has none. *)
Theorem delta_no_duplicates (local_list uw_list : list string) :
  (NoDup local_list -> NoDup (fst (delta local_list uw_list))) /\
  (NoDup uw_list -> NoDup (snd (delta local_list uw_list))).
Proof.
  unfold delta. destruct (PyStr.set_eqb local_list uw_list); simpl.
  - split; intros _; constructor.
  - rewrite !collect_missing_filter. split; apply NoDup_filter.
Qed.

Lemma delta_no_duplicates_witness :
  NoDup (fst (delta ["al"; "bob"] ["bob"; "carl"])).
Proof.
  apply (proj1 (delta_no_duplicates ["al"; "bob"] ["bob"; "carl"])).
  repeat constructor; simpl; intuition discriminate.
Defined.

(* ================================================================== *)
(** ** Further properties of the runs *)
(* ================================================================== *)

Lemma slice_In {A} (l : list A) (i j : nat) (x : A) :
  In x (PyStr.slice l i j) -> In x l.
Proof.
  unfold PyStr.slice. intros H.
  rewrite <- (firstn_skipn i l). apply in_or_app. right.
  rewrite <- (firstn_skipn (j - i) (skipn i l)). apply in_or_app. now left.
Qed.

Lemma total_sleep_app (t1 t2 : trace) :
  total_sleep (t1 ++ t2) = total_sleep t1 + total_sleep t2.
Proof.
  induction t1 as [|e t1 IH]; [reflexivity|].
  destruct e; simpl; rewrite IH; lia.
Qed.

Lemma summary_pairs_app (t1 t2 : trace) :
  summary_pairs (t1 ++ t2) = summary_pairs t1 ++ summary_pairs t2.
Proof.
  induction t1 as [|e t1 IH]; [reflexivity|].
  destruct e as [| | | |[]| |]; simpl; rewrite IH; reflexivity.
Qed.

Lemma ends_with_exit_app (t1 t2 : trace) :
  Forall (fun e => is_exit e = false) t1 -> ends_with_exit t2 ->
  ends_with_exit (t1 ++ t2).
Proof.
  intros H1 [pre [line [-> Hpre]]]. exists (t1 ++ pre), line.
  split; [now rewrite app_assoc | now apply Forall_app].
Qed.

Section PhaseMore.

Variable mk : list string -> answer Z -> event.
Variable status : nat -> nat -> Z -> log_line.
Variable fatal : log_line.
Variable members : list string.
Hypothesis mk_answer : forall b a, call_answer (mk b a) = Some a.
Hypothesis status_logged : forall i j code, logged_status (status i j code) = Some code.
Hypothesis fatal_line : is_fatal_line fatal = true.

Lemma phase_more idxs t r :
  phase mk status fatal members idxs t r ->
  summary_pairs t = [] /\
  total_sleep t = List.length (filter call_returned t) /\
  (r = Ok tt -> Forall (fun e => is_exit e = false) t
                /\ total_sleep t = List.length idxs) /\
  (r = SysExit 1 -> ends_with_exit t).
Proof.
  assert (Mk : forall b a,
             is_exit (mk b a) = false /\
             (forall tl, total_sleep (mk b a :: tl) = total_sleep tl) /\
             (forall tl, summary_pairs (mk b a :: tl) = summary_pairs tl) /\
             call_returned (mk b a) = match a with Returns _ => true | Raises => false end).
  { intros b a. pose proof (mk_answer b a) as Hm. unfold call_returned.
    destruct (mk b a); simpl in Hm; try discriminate; inversion Hm; subst;
      repeat split; reflexivity. }
  assert (St : forall i j code tl,
             summary_pairs (EvPrint (status i j code) :: tl) = summary_pairs tl).
  { intros i j code tl. pose proof (status_logged i j code) as L.
    destruct (status i j code); simpl in L; try discriminate; reflexivity. }
  induction 1 as [|i idxs code t r _ [IHs [IHt [IHok IHx]]]|i idxs].
  - simpl. repeat split; auto; discriminate.
  - destruct (Mk (PyStr.slice members i (i + chunk_size)) (Returns code))
      as [Me [Mt [Ms Mr]]].
    split; [|split; [|split]].
    + now rewrite Ms, St.
    + rewrite Mt. cbn [filter]. rewrite Mr. simpl. now rewrite IHt.
    + intros Hr. destruct (IHok Hr) as [F L]. split.
      * constructor; [exact Me|]. repeat constructor. exact F.
      * rewrite Mt. simpl. now rewrite L.
    + intros Hr. destruct (IHx Hr) as [pre [line [-> Hpre]]].
      exists (mk (PyStr.slice members i (i + chunk_size)) (Returns code)
                :: EvPrint (status i (i + chunk_size) code) :: EvSleep 1 :: pre), line.
      split; [reflexivity|]. constructor; [exact Me|]. repeat constructor. exact Hpre.
  - destruct (Mk (PyStr.slice members i (i + chunk_size)) Raises)
      as [Me [Mt [Ms Mr]]].
    split; [|split; [|split]].
    + rewrite Ms. destruct fatal; try reflexivity; discriminate.
    + rewrite Mt. cbn [filter]. rewrite Mr. reflexivity.
    + discriminate.
    + intros _. exists [mk (PyStr.slice members i (i + chunk_size)) Raises], fatal.
      split; [reflexivity|]. constructor; [exact Me | constructor].
Qed.

End PhaseMore.

Section RunsMore.

Variable cfg : config.

Lemma add_phase_more uw_group local_group members t r :
  add_phase cfg uw_group local_group members t r ->
  summary_pairs t = [] /\
  total_sleep t = List.length (filter call_returned t) /\
  (r = Ok tt -> Forall (fun e => is_exit e = false) t
                /\ total_sleep t = ceil_div (List.length members) chunk_size) /\
  (r = SysExit 1 -> ends_with_exit t).
Proof.
  intros H. apply phase_more in H; try reflexivity.
  destruct H as [H1 [H2 [H3 H4]]].
  split; [exact H1|]. split; [exact H2|]. split; [|exact H4].
  intros Hr. destruct (H3 Hr) as [F L]. split; [exact F|]. rewrite L.
  unfold PyStr.range0. rewrite range_from_length; unfold chunk_size; try lia.
  now rewrite Nat.sub_0_r.
Qed.

Lemma remove_phase_more uw_group local_group members t r :
  remove_phase cfg uw_group local_group members t r ->
  summary_pairs t = [] /\
  total_sleep t = List.length (filter call_returned t) /\
  (r = Ok tt -> Forall (fun e => is_exit e = false) t
                /\ total_sleep t = ceil_div (List.length members) chunk_size) /\
  (r = SysExit 1 -> ends_with_exit t).
Proof.
  intros H. apply phase_more in H; try reflexivity.
  destruct H as [H1 [H2 [H3 H4]]].
  split; [exact H1|]. split; [exact H2|]. split; [|exact H4].
  intros Hr. destruct (H3 Hr) as [F L]. split; [exact F|]. rewrite L.
  unfold PyStr.range0. rewrite range_from_length; unfold chunk_size; try lia.
  now rewrite Nat.sub_0_r.
Qed.

Lemma reconcile_run_more uw_group local_group uw_list local_list t r :
  reconcile_run cfg uw_group local_group uw_list local_list t r ->
  total_sleep t = List.length (filter call_returned t) /\
  (r = Ok tt ->
   Forall (fun e => is_exit e = false) t /\
   summary_pairs t = [(uw_group, local_group)] /\
   total_sleep t
   = ceil_div (List.length (fst (delta local_list uw_list))) chunk_size
     + ceil_div (List.length (snd (delta local_list uw_list))) chunk_size) /\
  (r = SysExit 1 -> ends_with_exit t /\ summary_pairs t = []).
Proof.
  unfold delta.
  destruct 1 as [E | t1 E HA | t1 t2 E HA HR | t1 t2 E HA HR]; rewrite E; simpl negb;
    cbv iota; simpl fst; simpl snd.
  - simpl. repeat split; auto; discriminate.
  - apply add_phase_more in HA. destruct HA as [S1 [T1 [_ X1]]].
    split; [exact T1|]. split; [discriminate|]. intros Hr. split; [now apply X1 | exact S1].
  - apply add_phase_more in HA. destruct HA as [S1 [T1 [O1 _]]].
    apply remove_phase_more in HR. destruct HR as [S2 [T2 [_ X2]]].
    destruct (O1 eq_refl) as [F1 _].
    split; [|split].
    + rewrite total_sleep_app, filter_app, length_app, T1, T2. reflexivity.
    + discriminate.
    + intros _. split.
      * apply ends_with_exit_app; auto.
      * now rewrite summary_pairs_app, S1, S2.
  - apply add_phase_more in HA. destruct HA as [S1 [T1 [O1 _]]].
    apply remove_phase_more in HR. destruct HR as [S2 [T2 [O2 _]]].
    destruct (O1 eq_refl) as [F1 L1]. destruct (O2 eq_refl) as [F2 L2].
    split; [|split].
    + rewrite !total_sleep_app, !filter_app, !length_app, T1, T2. reflexivity.
    + intros _. split; [|split].
      * apply Forall_app. split; [assumption|]. apply Forall_app.
        split; [assumption | repeat constructor].
      * now rewrite !summary_pairs_app, S1, S2.
      * rewrite !total_sleep_app, L1, L2. simpl. lia.
    + discriminate.
Qed.

Lemma group_run_more pair t r :
  group_run cfg pair t r ->
  total_sleep t = List.length (filter call_returned t) /\
  (r = Ok tt -> Forall (fun e => is_exit e = false) t /\ summary_pairs t = [pair]) /\
  (r = SysExit 1 -> ends_with_exit t /\ summary_pairs t = []).
Proof.
  destruct 1 as [ug lg | ug lg data | ug lg data stdout P
                 | ug lg data stdout local_list t r P R].
  - split; [reflexivity|]. split; [discriminate|]. intros _. split; [|reflexivity].
    exists [EvGet (member_url cfg ug) Raises], FatalRetrieving.
    split; [reflexivity | repeat constructor].
  - split; [reflexivity|]. split; [discriminate|]. intros _. split; [|reflexivity].
    exists [EvGet (member_url cfg ug) (Returns data); EvGetent lg Raises],
           FatalRetrieving.
    split; [reflexivity | repeat constructor].
  - split; [reflexivity|]. split; [discriminate|]. intros _. split; [|reflexivity].
    exists [EvGet (member_url cfg ug) (Returns data); EvGetent lg (Returns stdout)],
           FatalRetrieving.
    split; [reflexivity | repeat constructor].
  - apply reconcile_run_more in R. destruct R as [T [O X]].
    split; [exact T|]. split.
    + intros Hr. destruct (O Hr) as [F [Sm _]]. split; [|exact Sm].
      repeat constructor. exact F.
    + intros Hr. destruct (X Hr) as [Ex Sm]. split; [|exact Sm].
      apply (ends_with_exit_app
               [EvGet (member_url cfg ug) (Returns data);
                EvGetent lg (Returns stdout)] t); [repeat constructor | exact Ex].
Qed.

Lemma main_run_more pairs t r :
  main_run cfg pairs t r ->
  total_sleep t = List.length (filter call_returned t) /\
  (r = Ok tt -> Forall (fun e => is_exit e = false) t /\ summary_pairs t = pairs) /\
  (r = SysExit 1 ->
   ends_with_exit t /\
   exists done, done < List.length pairs /\ summary_pairs t = firstn done pairs).
Proof.
  induction 1 as [|pair pairs t1 t2 r G M [IHt [IHok IHx]]|pair pairs t1 G].
  - split; [reflexivity|]. split; [|discriminate]. intros _. split; [constructor | reflexivity].
  - apply group_run_more in G. destruct G as [T1 [O1 _]].
    destruct (O1 eq_refl) as [F1 S1]. split; [|split].
    + rewrite total_sleep_app, filter_app, length_app, T1, IHt. reflexivity.
    + intros Hr. destruct (IHok Hr) as [F2 S2]. split.
      * now apply Forall_app.
      * now rewrite summary_pairs_app, S1, S2.
    + intros Hr. destruct (IHx Hr) as [Ex [done [Hd S2]]]. split.
      * now apply ends_with_exit_app.
      * exists (S done). split; [simpl; lia|].
        now rewrite summary_pairs_app, S1, S2.
  - apply group_run_more in G. destruct G as [T1 [_ X1]].
    destruct (X1 eq_refl) as [Ex S1]. split; [exact T1|]. split; [discriminate|].
    intros _. split; [exact Ex|]. exists 0. split; [simpl; lia | exact S1].
Qed.

End RunsMore.

Section CallsMore.

Variable cfg : config.
Variable uw_group local_group : string.

Lemma slice_members (members : list string) (i j : nat) :
  Forall (fun m => In m members) (PyStr.slice members i j).
Proof. apply Forall_forall. intros m. apply slice_In. Qed.

Lemma slice_not_nil (members : list string) (i : nat) :
  i < List.length members -> PyStr.slice members i (i + chunk_size) <> [].
Proof.
  intros Hi. unfold PyStr.slice, chunk_size.
  replace (i + 50 - i) with 50 by lia.
  destruct (skipn i members) eqn:E.
  - exfalso. apply (f_equal (@List.length string)) in E.
    rewrite length_skipn in E. simpl in E. lia.
  - simpl. discriminate.
Qed.

Lemma add_phase_sends members rems idxs t r :
  phase (mk_put cfg uw_group) (StatusAdd uw_group local_group) FatalAdding
        members idxs t r ->
  (forall i, In i idxs -> i < List.length members) ->
  Forall (sends_only cfg uw_group members rems) t.
Proof.
  induction 1 as [|i idxs code t r _ IH|i idxs]; intros B.
  - constructor.
  - constructor; [|repeat constructor; apply IH; intros j Hj; apply B; now right].
    simpl. split; [reflexivity|]. split; [|apply slice_members].
    apply slice_not_nil, B. now left.
  - repeat constructor; [|apply slice_members].
    apply slice_not_nil, B. now left.
Qed.

Lemma remove_phase_sends adds members idxs t r :
  phase (mk_delete cfg uw_group) (StatusRemove uw_group local_group) FatalRemoving
        members idxs t r ->
  (forall i, In i idxs -> i < List.length members) ->
  Forall (sends_only cfg uw_group adds members) t.
Proof.
  induction 1 as [|i idxs code t r _ IH|i idxs]; intros B.
  - constructor.
  - constructor; [|repeat constructor; apply IH; intros j Hj; apply B; now right].
    simpl. split; [reflexivity|]. split; [|apply slice_members].
    apply slice_not_nil, B. now left.
  - repeat constructor; [|apply slice_members].
    apply slice_not_nil, B. now left.
Qed.

Lemma reconcile_run_sends uw_list local_list t r :
  reconcile_run cfg uw_group local_group uw_list local_list t r ->
  Forall (sends_only cfg uw_group (fst (delta local_list uw_list))
                     (snd (delta local_list uw_list))) t.
Proof.
  unfold delta.
  destruct 1 as [E | t1 E HA | t1 t2 E HA HR | t1 t2 E HA HR]; rewrite E; simpl negb;
    cbv iota; simpl fst; simpl snd.
  - repeat constructor.
  - eapply add_phase_sends; [eassumption | apply range_from_bound].
  - apply Forall_app. split;
      [eapply add_phase_sends | eapply remove_phase_sends];
      try eassumption; apply range_from_bound.
  - apply Forall_app. split;
      [eapply add_phase_sends; [eassumption | apply range_from_bound]|].
    apply Forall_app. split;
      [eapply remove_phase_sends; [eassumption | apply range_from_bound]|].
    repeat constructor.
Qed.

Lemma group_run_sends t r :
  group_run cfg (uw_group, local_group) t r ->
  Forall (fun e => is_call e = false) t \/
  exists data stdout local_list t',
    t = EvGet (member_url cfg uw_group) (Returns data)
          :: EvGetent local_group (Returns stdout) :: t' /\
    parse_getent stdout = Some local_list /\
    Forall (sends_only cfg uw_group
              (fst (delta local_list (select_members data)))
              (snd (delta local_list (select_members data)))) t'.
Proof.
  intros H. inversion H as [ug lg | ug lg data | ug lg data stdout P
                            | ug lg data stdout local_list t0 r0 P R]; subst.
  - left. repeat constructor.
  - left. repeat constructor.
  - left. repeat constructor.
  - right. exists data, stdout, local_list, t0.
    split; [reflexivity|]. split; [assumption|].
    eapply reconcile_run_sends; eassumption.
Qed.

End CallsMore.

(** X10. A run of the loop of [main] ends in one of two ways: normally, and
    then the process never called [sys.exit], or through [sys.exit(1)], and
    then the trace stops at a fatal line followed by that exit, the only one
    in it.  No exception escapes, and the exit status is 0 or 1. *)
Theorem run_ends_normally_or_exit_1 world cfg pairs h t r :
  main_loop world cfg pairs h = (t, r) ->
  (r = Ok tt /\ exit_status r = 0 /\ Forall (fun e => is_exit e = false) t) \/
  (r = SysExit 1 /\ exit_status r = 1 /\
   exists pre line,
     t = pre ++ [EvPrint line; EvExit 1] /\ Forall (fun e => is_exit e = false) pre).
Proof.
  intros H. apply main_loop_shape in H.
  pose proof H as R. apply main_run_result in R.
  apply main_run_more in H. destruct H as [_ [Hok Hx]].
  destruct R as [-> | ->].
  - left. split; [reflexivity|]. split; [reflexivity|]. now apply Hok.
  - right. split; [reflexivity|]. split; [reflexivity|]. now apply Hx.
Qed.

Lemma run_ends_normally_or_exit_1_witness :
  (snd (run put_raises_world one_pair_cfg) = Ok tt /\
   exit_status (snd (run put_raises_world one_pair_cfg)) = 0 /\
   Forall (fun e => is_exit e = false) (fst (run put_raises_world one_pair_cfg))) \/
  (snd (run put_raises_world one_pair_cfg) = SysExit 1 /\
   exit_status (snd (run put_raises_world one_pair_cfg)) = 1 /\
   exists pre line,
     fst (run put_raises_world one_pair_cfg) = pre ++ [EvPrint line; EvExit 1] /\
     Forall (fun e => is_exit e = false) pre).
Proof.
  apply (run_ends_normally_or_exit_1 put_raises_world one_pair_cfg
           (group_map one_pair_cfg) []
           (fst (run put_raises_world one_pair_cfg))
           (snd (run put_raises_world one_pair_cfg)) eq_refl).
Defined.

(** X11. The summary lines of a run name the pairs of the group map in
    order: all of them when the run ends normally, and only the pairs before
    the one whose turn ended in the fatal exit otherwise. *)
Theorem summaries_follow_group_map world cfg pairs h t r :
  main_loop world cfg pairs h = (t, r) ->
  (r = Ok tt -> summary_pairs t = pairs) /\
  (r = SysExit 1 ->
   exists done, done < List.length pairs /\ summary_pairs t = firstn done pairs).
Proof.
  intros H. apply main_loop_shape, main_run_more in H.
  destruct H as [_ [Hok Hx]]. split.
  - intros Hr. now apply Hok.
  - intros Hr. now apply Hx.
Qed.

Lemma summaries_follow_group_map_witness :
  summary_pairs (fst (run status_500_world sample_cfg)) = group_map sample_cfg.
Proof.
  apply (proj1 (summaries_follow_group_map status_500_world sample_cfg
                  (group_map sample_cfg) []
                  (fst (run status_500_world sample_cfg))
                  (snd (run status_500_world sample_cfg)) eq_refl)).
  reflexivity.
Defined.

(** X12. Over a whole run the program sleeps exactly one second for each
    batch call that returned, and not at all otherwise. *)
Theorem one_second_per_returned_call world cfg pairs h t r :
  main_loop world cfg pairs h = (t, r) ->
  total_sleep t = List.length (filter call_returned t).
Proof.
  intros H. apply main_loop_shape, main_run_more in H. apply H.
Qed.

Lemma one_second_per_returned_call_witness :
  total_sleep (fst (run status_500_world sample_cfg)) = 4.
Proof.
  exact (one_second_per_returned_call status_500_world sample_cfg
           (group_map sample_cfg) []
           (fst (run status_500_world sample_cfg))
           (snd (run status_500_world sample_cfg)) eq_refl).
Defined.

(** X13. A reconciliation that is not cut short sleeps ceil(A/50) +
    ceil(R/50) seconds, for A members to add and R to remove, prints the
    summary line for its pair last, and prints no other summary line; one
    that is cut short prints no summary line. *)
Theorem completed_reconcile_pause_and_summary
        world cfg uw_group local_group uw_list local_list h t r :
  reconcile world cfg uw_group local_group uw_list local_list h = (t, r) ->
  (r = Ok tt ->
   total_sleep t
   = ceil_div (List.length (fst (delta local_list uw_list))) 50
     + ceil_div (List.length (snd (delta local_list uw_list))) 50 /\
   summary_pairs t = [(uw_group, local_group)] /\
   exists t',
     t = t' ++ [EvPrint (Summary uw_group local_group
                           (List.length (fst (delta local_list uw_list)))
                           (List.length (snd (delta local_list uw_list))))]) /\
  (r = SysExit 1 -> summary_pairs t = []).
Proof.
  intros H. pose proof H as Sh. apply reconcile_shape, reconcile_run_more in Sh.
  destruct Sh as [_ [Hok Hx]]. split.
  - intros Hr. destruct (Hok Hr) as [_ [Sm Sl]]. subst r.
    split; [exact Sl|]. split; [exact Sm|].
    now apply reconcile_reports_delta in H.
  - intros Hr. now apply Hx.
Qed.

Lemma completed_reconcile_pause_and_summary_witness :
  total_sleep (fst (reconcile status_500_world one_pair_cfg "u_dept_staff" "staff"
                      ["zz"] (many_names 120) [])) = 3 + 1.
Proof.
  exact (proj1 (proj1
           (completed_reconcile_pause_and_summary
              status_500_world one_pair_cfg "u_dept_staff" "staff"
              ["zz"] (many_names 120) []
              (fst (reconcile status_500_world one_pair_cfg "u_dept_staff" "staff"
                      ["zz"] (many_names 120) []))
              (snd (reconcile status_500_world one_pair_cfg "u_dept_staff" "staff"
                      ["zz"] (many_names 120) []))
              eq_refl)
           eq_refl)).
Defined.

Lemma concat_firstn_NoDup {A} (l : list (list A)) (k : nat) :
  NoDup (List.concat l) -> NoDup (List.concat (firstn k l)).
Proof.
  intros H. rewrite <- (firstn_skipn k l), concat_app in H.
  now apply NoDup_app_remove_r in H.
Qed.




(** X15. When the local list has no duplicate, no identifier goes out in
    more than one PUT, or twice in one, during a reconciliation; when the
    remote list has no duplicate the same holds for the DELETE calls. *)
Theorem no_identifier_sent_twice
        world cfg uw_group local_group uw_list local_list h t r :
  reconcile world cfg uw_group local_group uw_list local_list h = (t, r) ->
  (NoDup local_list -> NoDup (List.concat (put_batches t))) /\
  (NoDup uw_list -> NoDup (List.concat (delete_batches t))).
Proof.
  intros H. apply reconcile_batches_prefix in H.
  destruct H as [[k ->] [k' ->]].
  assert (D : forall xs ys, NoDup xs -> NoDup (collect_missing xs ys)).
  { intros xs ys. rewrite collect_missing_filter. apply NoDup_filter. }
  unfold delta. destruct (PyStr.set_eqb local_list uw_list); simpl.
  - rewrite !firstn_nil. split; intros _; constructor.
  - split; intros N; apply concat_firstn_NoDup; rewrite chunks_concat; now apply D.
Qed.

Lemma no_identifier_sent_twice_witness :
  NoDup (List.concat
           (put_batches
              (fst (reconcile status_500_world one_pair_cfg "u_dept_staff" "staff"
                      ["bob"] ["al"; "carl"] [])))).
Proof.
  apply (proj1 (no_identifier_sent_twice status_500_world one_pair_cfg
                  "u_dept_staff" "staff" ["bob"] ["al"; "carl"] []
                  (fst (reconcile status_500_world one_pair_cfg
                          "u_dept_staff" "staff" ["bob"] ["al"; "carl"] []))
                  (snd (reconcile status_500_world one_pair_cfg
                          "u_dept_staff" "staff" ["bob"] ["al"; "carl"] []))
                  eq_refl)).
  repeat constructor; simpl; intuition discriminate.
Defined.

(** X16. In the turn for a pair of groups, every DELETE goes to the member
    URL of the remote group of the pair, and every identifier it carries was
    kept from the listing fetched in that turn, so it passed the identifier
    check, and is not in the local list. *)
Theorem deletes_only_listed_members world cfg uw_group local_group h t r :
  sync_group world cfg (uw_group, local_group) h = (t, r) ->
  forall url batch ans,
    In (EvDelete url batch ans) t ->
    url = members_url cfg uw_group batch /\
    Forall (fun m => valid_netid m = true) batch /\
    exists data stdout local_list,
      In (EvGet (member_url cfg uw_group) (Returns data)) t /\
      In (EvGetent local_group (Returns stdout)) t /\
      parse_getent stdout = Some local_list /\
      Forall (fun m => In m (select_members data) /\ ~ In m local_list) batch.
Proof.
  intros H url batch ans Hin.
  apply sync_group_shape, group_run_sends in H.
  destruct H as [Hno | [data [stdout [local_list [t' [-> [P Hs]]]]]]].
  - rewrite Forall_forall in Hno. specialize (Hno _ Hin). discriminate.
  - destruct Hin as [Hin | [Hin | Hin]]; try discriminate.
    rewrite Forall_forall in Hs. specialize (Hs _ Hin). simpl in Hs.
    destruct Hs as [-> [_ Hb]].
    assert (Hb' : Forall (fun m => In m (select_members data) /\ ~ In m local_list)
                         batch).
    { eapply Forall_impl; [|exact Hb]. intros m Hm. now apply delta_remove_In in Hm. }
    split; [reflexivity|]. split.
    + eapply Forall_impl; [|exact Hb']. intros m [Hm _].
      eapply select_members_valid; eassumption.
    + exists data, stdout, local_list. simpl. auto 6.
Qed.


Lemma deletes_only_listed_members_witness :
  "https://gws.example/v3/group/u_dept_staff/member/bob"
    = members_url one_pair_cfg "u_dept_staff" ["bob"] /\
  Forall (fun m => valid_netid m = true) ["bob"].
Proof.
  pose proof (deletes_only_listed_members status_500_world one_pair_cfg
                "u_dept_staff" "staff" []
                (fst (run status_500_world one_pair_cfg))
                (snd (run status_500_world one_pair_cfg)) eq_refl
                "https://gws.example/v3/group/u_dept_staff/member/bob" ["bob"]
                (Returns 404%Z)) as H.
  assert (Hin : In (EvDelete "https://gws.example/v3/group/u_dept_staff/member/bob"
                      ["bob"] (Returns 404%Z))
                   (fst (run status_500_world one_pair_cfg))).
  { simpl. tauto. }
  destruct (H Hin) as [U [V _]]. exact (conj U V).
Defined.


(** X18. A turn of the loop asks for the remote listing first and once.  When
    that raises, the local group is not read; when it returns, the local
    group is read next and once, and nothing is fetched after that. *)
Theorem fetches_first_and_once world cfg uw_group local_group h t r :
  sync_group world cfg (uw_group, local_group) h = (t, r) ->
  exists listing rest,
    t = EvGet (member_url cfg uw_group) listing :: rest /\
    match listing with
    | Raises => Forall (fun e => is_fetch e = false) rest
    | Returns _ =>
        exists stdout rest',
          rest = EvGetent local_group stdout :: rest' /\
          Forall (fun e => is_fetch e = false) rest'
    end.
Proof.
  intros H. apply sync_group_shape in H.
  inversion H as [ug lg | ug lg data | ug lg data stdout P
                  | ug lg data stdout local_list t0 r0 P R]; subst.
  - eexists _, _. split; [reflexivity|]. repeat constructor.
  - eexists _, _. split; [reflexivity|]. eexists _, _.
    split; [reflexivity|]. repeat constructor.
  - eexists _, _. split; [reflexivity|]. eexists _, _.
    split; [reflexivity|]. repeat constructor.
  - eexists _, _. split; [reflexivity|]. eexists _, _.
    split; [reflexivity|].
    apply reconcile_run_sends in R.
    eapply Forall_impl; [|exact R].
    intros e He. destruct e; simpl in *; tauto.
Qed.

Lemma fetches_first_and_once_witness :
  exists listing rest,
    fst (run get_raises_world one_pair_cfg)
    = EvGet (member_url one_pair_cfg "u_dept_staff") listing :: rest /\
    match listing with
    | Raises => Forall (fun e => is_fetch e = false) rest
    | Returns _ =>
        exists stdout rest',
          rest = EvGetent "staff" stdout :: rest' /\
          Forall (fun e => is_fetch e = false) rest'
    end.
Proof.
  apply (fetches_first_and_once get_raises_world one_pair_cfg
           "u_dept_staff" "staff" []
           (fst (run get_raises_world one_pair_cfg))
           (snd (run get_raises_world one_pair_cfg)) eq_refl).
Defined.

(** X19. The URL of a batch call names its batch without ambiguity: for
    every PUT and every DELETE of a turn the batch is not empty, none of its
    identifiers holds a comma, and splitting at commas the list that was
    joined into the URL gives the batch back. *)
Theorem batch_url_splits_back world cfg uw_group local_group h t r :
  sync_group world cfg (uw_group, local_group) h = (t, r) ->
  forall e url batch ans,
    In e t -> e = EvPut url batch ans \/ e = EvDelete url batch ans ->
    url = members_url cfg uw_group batch /\
    batch <> [] /\
    PyStr.split ","%char (PyStr.join comma batch) = batch.
Proof.
  intros H e url batch ans Hin He.
  apply sync_group_shape, group_run_sends in H.
  destruct H as [Hno | [data [stdout [local_list [t' [-> [P Hs]]]]]]].
  - rewrite Forall_forall in Hno. specialize (Hno _ Hin).
    destruct He as [-> | ->]; discriminate.
  - assert (Hin' : In e t').
    { destruct Hin as [<- | [<- | Hin]]; try assumption;
        destruct He as [He | He]; discriminate. }
    rewrite Forall_forall in Hs. specialize (Hs _ Hin').
    assert (Hl : Forall (fun m => count_char ","%char m = 0) local_list).
    { unfold parse_getent in P.
      destruct (nth_error _ 3) as [field|]; [|discriminate].
      inversion P; subst. apply split_no_sep. }
    destruct He as [-> | ->]; simpl in Hs; destruct Hs as [-> [Hne Hb]];
      (split; [reflexivity|]); (split; [exact Hne|]);
      apply split_join; try exact Hne.
    + eapply Forall_impl; [|exact Hb]. intros m Hm.
      apply delta_add_In in Hm. destruct Hm as [Hm _].
      rewrite Forall_forall in Hl. now apply Hl.
    + eapply Forall_impl; [|exact Hb]. intros m Hm.
      apply delta_remove_In in Hm. destruct Hm as [Hm _].
      apply select_members_valid, valid_netid_plain in Hm. tauto.
Qed.

Lemma batch_url_splits_back_witness :
  "https://gws.example/v3/group/u_dept_staff/member/al"
    = members_url one_pair_cfg "u_dept_staff" ["al"] /\
  ["al"] <> [] /\
  PyStr.split ","%char (PyStr.join comma ["al"]) = ["al"].
Proof.
  apply (batch_url_splits_back status_500_world one_pair_cfg
           "u_dept_staff" "staff" []
           (fst (run status_500_world one_pair_cfg))
           (snd (run status_500_world one_pair_cfg)) eq_refl
           (EvPut "https://gws.example/v3/group/u_dept_staff/member/al" ["al"]
                  (Returns 500%Z))
           "https://gws.example/v3/group/u_dept_staff/member/al" ["al"]
           (Returns 500%Z)).
  - simpl. tauto.
  - left. reflexivity.
Defined.
